(** * The session store of the Ergodeon web client

    A shallow embedding of [web/src/lib/socket.js]: the eight Svelte stores,
    the module variables [_socket] and [_msgId], the inbound handlers that
    [connect()] registers on the socket and the outbound operations
    [sendInput], [sendConfirm], [sendCommand], [clearMessages], [clearLogs].
    The second half embeds the script parts of the components that use the
    store: [Input.svelte], [App.svelte], [StatusBar.svelte], [Chat.svelte]
    and [OnboardingModal.svelte].

    Conventions of the embedding.
    - A JavaScript string is its sequence of UTF-16 code units, so that
      [s.slice(0, 120)] is [firstn 120 s] and [s.length] is [length s].
    - A payload is a JSON-like value, or [undefined] when the event carries
      no argument.  An object lists its own properties in enumeration order.
    - JavaScript numbers are IEEE doubles.  The handlers never compute with a
      number received in a payload: they test its truthiness and print it.
      These operations are the interface [NumberOps]; every statement holds
      for every implementation of it.
    - [Date.now()] is an input of the operation that reads the clock.
    - [_msgId] is an integer counter.  Doubles are exact on integers below
      2^53; the counter is modelled by an unbounded integer.
    - A handler either completes and gives the next store, or throws. *)

From Stdlib Require Import String Ascii DecimalString.
From Stdlib Require Import ZArith NArith List Bool Lia Sorted.
Import ListNotations.

Set Implicit Arguments.
Set Warnings "-register-all".

(** ** Strings *)

Definition jsstring := list N.

(** An ASCII literal of the source. *)
Definition lit (s : string) : jsstring :=
  map N_of_ascii (list_ascii_of_string s).

Fixpoint str_eqb (a b : jsstring) : bool :=
  match a, b with
  | [], [] => true
  | x :: a', y :: b' => N.eqb x y && str_eqb a' b'
  | _, _ => false
  end.

(** [parts.join(sep)] on strings. *)
Fixpoint join (sep : jsstring) (parts : list jsstring) : jsstring :=
  match parts with
  | [] => []
  | [p] => p
  | p :: rest => p ++ sep ++ join sep rest
  end.

(** [s.slice(0, n)] for a non-negative [n]. *)
Definition slice0 (n : nat) (s : jsstring) : jsstring := firstn n s.

(** [list.slice(-n)]: the last [n] elements, the whole list when shorter. *)
Definition slice_last {A : Type} (n : nat) (l : list A) : list A :=
  skipn (length l - n) l.

(** The non-ASCII literals of the source, as code units. *)
Definition arrow_right : jsstring := [8594%N; 32%N].          (* "→ " *)
Definition arrow_left : jsstring := [8592%N; 32%N].           (* "← " *)
Definition two_spaces : jsstring := [32%N; 32%N].
Definition text_connected : jsstring :=                       (* "Соединение установлено" *)
  [1057; 1086; 1077; 1076; 1080; 1085; 1077; 1085; 1080; 1077; 32; 1091;
   1089; 1090; 1072; 1085; 1086; 1074; 1083; 1077; 1085; 1086]%N.
Definition text_disconnected : jsstring :=                    (* "Соединение разорвано" *)
  [1057; 1086; 1077; 1076; 1080; 1085; 1077; 1085; 1080; 1077; 32; 1088;
   1072; 1079; 1086; 1088; 1074; 1072; 1085; 1086]%N.
Definition text_unknown_error : jsstring :=                   (* "неизвестная ошибка" *)
  [1085; 1077; 1080; 1079; 1074; 1077; 1089; 1090; 1085; 1072; 1103; 32;
   1086; 1096; 1080; 1073; 1082; 1072]%N.
Definition text_error_prefix : jsstring :=                    (* "Ошибка: " *)
  [1054; 1096; 1080; 1073; 1082; 1072; 58; 32]%N.

(** Lowercase hexadecimal digit of a value below 16. *)
Definition hex_digit (d : N) : N :=
  (if d <? 10 then 48 + d else 87 + d)%N.

(** [UnicodeEscape]: backslash, u and four lowercase hexadecimal digits. *)
Definition unicode_escape (u : N) : jsstring :=
  [92; 117;
   hex_digit ((u / 4096) mod 16); hex_digit ((u / 256) mod 16);
   hex_digit ((u / 16) mod 16); hex_digit (u mod 16)]%N.

Definition is_high_surrogate (u : N) : bool := ((55296 <=? u) && (u <=? 56319))%N.
Definition is_low_surrogate (u : N) : bool := ((56320 <=? u) && (u <=? 57343))%N.

(** The escapes of [QuoteJSONString] for one code unit outside a pair. *)
Definition quote_unit (u : N) : jsstring :=
  (if u =? 8 then [92; 98]
   else if u =? 9 then [92; 116]
   else if u =? 10 then [92; 110]
   else if u =? 12 then [92; 102]
   else if u =? 13 then [92; 114]
   else if u =? 34 then [92; 34]
   else if u =? 92 then [92; 92]
   else if (u <? 32) || is_high_surrogate u || is_low_surrogate u
        then unicode_escape u
   else [u])%N.

Fixpoint quote_units (s : jsstring) : jsstring :=
  match s with
  | [] => []
  | u :: rest =>
      if is_high_surrogate u then
        match rest with
        | l :: rest' =>
            if is_low_surrogate l then u :: l :: quote_units rest'
            else quote_unit u ++ quote_units rest
        | [] => quote_unit u
        end
      else quote_unit u ++ quote_units rest
  end.

(** [QuoteJSONString]. *)
Definition quote (s : jsstring) : jsstring :=
  [34%N] ++ quote_units s ++ [34%N].

(** ** Completions *)

(** The result of evaluating JavaScript code: a value, or a thrown
    [TypeError] (the only exception the modelled code can raise). *)
Inductive completion (A : Type) : Type :=
| Normal (a : A)
| TypeError.
Arguments TypeError {A}.

Definition bind {A B : Type} (c : completion A) (k : A -> completion B)
  : completion B :=
  match c with
  | Normal a => k a
  | TypeError => TypeError
  end.

Notation "x <- c ;; k" := (bind c (fun x => k))
  (at level 61, c at next level, right associativity).

Definition throws {A : Type} (c : completion A) : bool :=
  match c with
  | Normal _ => false
  | TypeError => true
  end.

(** ** Numbers *)

Class NumberOps : Type := {
  number : Type;
  (** [ToBoolean]: false on +0, -0 and NaN. *)
  num_truthy : number -> bool;
  (** Neither NaN nor an infinity. *)
  num_finite : number -> bool;
  (** [Number::toString]. *)
  num_to_string : number -> jsstring;
  (** The literal [0]. *)
  num_zero : number
}.

(** The decimal digits of a natural number (the name of an array index). *)
Definition digits_of_nat (n : nat) : jsstring :=
  lit (NilEmpty.string_of_uint (Nat.to_uint n)).

Definition digits_of_Z (z : Z) : jsstring :=
  (if (z <? 0)%Z then lit "-" else []) ++ digits_of_nat (Z.abs_nat z).

(** Integers as numbers: enough to run the model on concrete payloads. *)
#[export] Instance IntegerNumbers : NumberOps := {|
  number := Z;
  num_truthy := fun z => negb (z =? 0)%Z;
  num_finite := fun _ => true;
  num_to_string := digits_of_Z;
  num_zero := 0%Z
|}.

(** ** Values *)

Section Values.
Context {num : NumberOps}.

Inductive value : Type :=
| VUndef
| VNull
| VBool (b : bool)
| VNum (n : number)
| VStr (s : jsstring)
| VArr (elems : list value)
| VObj (props : list (jsstring * value)).

(** [ToBoolean]. *)
Definition truthy (v : value) : bool :=
  match v with
  | VUndef | VNull => false
  | VBool b => b
  | VNum n => num_truthy n
  | VStr s => match s with [] => false | _ => true end
  | VArr _ | VObj _ => true
  end.

(** [a || b] where evaluating [b] cannot throw. *)
Definition js_or (a b : value) : value := if truthy a then a else b.

(** [typeof v === 'string']. *)
Definition is_string (v : value) : bool :=
  match v with VStr _ => true | _ => false end.

(** [v === 'literal']: strict equality with a string. *)
Definition strict_eq_str (v : value) (s : jsstring) : bool :=
  match v with VStr t => str_eqb t s | _ => false end.

Fixpoint own_prop (k : jsstring) (props : list (jsstring * value)) : option value :=
  match props with
  | [] => None
  | (k', v) :: rest => if str_eqb k' k then Some v else own_prop k rest
  end.

Definition has_own (k : jsstring) (props : list (jsstring * value)) : bool :=
  match own_prop k props with Some _ => true | None => false end.

(** [v.k] for the property names the handlers read (text, type, payload,
    workflow, project, status, message, msg, level, phase, step, total,
    description, error, tool, args, result).  Reading a property of
    [undefined] or [null] throws; none of these names is defined on the
    prototype of a primitive, an array or a plain object, so everything
    but an own property reads as [undefined]. *)
Definition get (v : value) (k : string) : completion value :=
  match v with
  | VUndef | VNull => TypeError
  | VObj props =>
      Normal (match own_prop (lit k) props with Some x => x | None => VUndef end)
  | _ => Normal VUndef
  end.

(** [JSON.stringify(v)]: [None] is the result [undefined]. *)
Fixpoint json_stringify (v : value) : option jsstring :=
  match v with
  | VUndef => None
  | VNull => Some (lit "null")
  | VBool b => Some (if b then lit "true" else lit "false")
  | VNum n => Some (if num_finite n then num_to_string n else lit "null")
  | VStr s => Some (quote s)
  | VArr elems =>
      Some (lit "[" ++
            join (lit ",")
              (map (fun x => match json_stringify x with
                             | Some s => s
                             | None => lit "null"
                             end) elems) ++
            lit "]")
  | VObj props =>
      Some (lit "{" ++
            join (lit ",")
              (flat_map (fun kv => match json_stringify (snd kv) with
                                   | Some s => [quote (fst kv) ++ lit ":" ++ s]
                                   | None => []
                                   end) props) ++
            lit "}")
  end.

(** [ToString(v)], as [String(v)] and a template literal apply it.  An array
    joins its elements with commas, [undefined] and [null] elements being
    empty.  A plain object prints as [[object Object]] through
    [Object.prototype.toString]; an own property named [toString] shadows
    that method and, holding data, is not callable, so that neither
    [toString] nor [valueOf] yields a primitive and the conversion throws. *)
Fixpoint to_string (v : value) : completion jsstring :=
  match v with
  | VUndef => Normal (lit "undefined")
  | VNull => Normal (lit "null")
  | VBool b => Normal (if b then lit "true" else lit "false")
  | VNum n => Normal (num_to_string n)
  | VStr s => Normal s
  | VArr elems =>
      parts <- (fix each (l : list value) : completion (list jsstring) :=
                  match l with
                  | [] => Normal []
                  | x :: rest =>
                      p <- match x with
                           | VUndef | VNull => Normal []
                           | _ => to_string x
                           end ;;
                      ps <- each rest ;;
                      Normal (p :: ps)
                  end) elems ;;
      Normal (join (lit ",") parts)
  | VObj props =>
      if has_own (lit "toString") props then TypeError
      else Normal (lit "[object Object]")
  end.

(** [obj[k] = v] on the property list: an existing property keeps its
    place, a new one goes last. *)
Fixpoint set_prop (k : jsstring) (v : value) (props : list (jsstring * value))
  : list (jsstring * value) :=
  match props with
  | [] => [(k, v)]
  | (k', v') :: rest =>
      if str_eqb k' k then (k, v) :: rest else (k', v') :: set_prop k v rest
  end.

(** The own enumerable properties that [{...v}] copies: those of an object,
    the indices of an array or of a string, none of another primitive. *)
Definition spread_props (v : value) : list (jsstring * value) :=
  match v with
  | VObj props => props
  | VArr elems =>
      map (fun ix => (digits_of_nat (fst ix), snd ix))
          (combine (seq 0 (length elems)) elems)
  | VStr s =>
      map (fun ix => (digits_of_nat (fst ix), VStr [snd ix]))
          (combine (seq 0 (length s)) s)
  | _ => []
  end.

(** The number a string of decimal digits writes, from [acc] on. *)
Fixpoint decimal_value (acc : N) (s : jsstring) : option N :=
  match s with
  | [] => Some acc
  | u :: rest =>
      if ((48 <=? u) && (u <=? 57))%N
      then decimal_value (10 * acc + (u - 48)) rest
      else None
  end.

(** An array index: the canonical decimal name of an integer from 0 to
    2^32 - 2.  An object enumerates these keys before its other keys. *)
Definition is_array_index (k : jsstring) : bool :=
  match k with
  | [] => false
  | u :: rest =>
      if (u =? 48)%N then match rest with [] => true | _ => false end
      else match decimal_value 0 k with
           | Some n => (n <=? 4294967294)%N
           | None => false
           end
  end.

Definition index_value (k : jsstring) : N :=
  match decimal_value 0 k with
  | Some n => n
  | None => 0%N
  end.

(** Array-index properties in ascending order of the index. *)
Fixpoint insert_index (kv : jsstring * value) (props : list (jsstring * value))
  : list (jsstring * value) :=
  match props with
  | [] => [kv]
  | kv' :: rest =>
      if (index_value (fst kv) <=? index_value (fst kv'))%N
      then kv :: kv' :: rest
      else kv' :: insert_index kv rest
  end.

Definition sort_indices (props : list (jsstring * value))
  : list (jsstring * value) :=
  fold_right insert_index [] props.

(** The order in which an object enumerates the properties created in the
    order [created]: the array indices ascending, then the other keys as
    created. *)
Definition enumeration_order (created : list (jsstring * value))
  : list (jsstring * value) :=
  sort_indices (filter (fun kv => is_array_index (fst kv)) created)
  ++ filter (fun kv => negb (is_array_index (fst kv))) created.

(** [{ ...base, ...v }]: the properties of [base] are created first, those
    of [v] are assigned after them. *)
Definition spread_into (base : list (jsstring * value)) (v : value)
  : list (jsstring * value) :=
  enumeration_order
    (fold_left (fun acc kv => set_prop (fst kv) (snd kv) acc) (spread_props v) base).

End Values.

(** ** The store *)

Section Store.
Context {num : NumberOps}.

(** An element of [messages]: [{ id, type, text, ts, payload }]. *)
Record Message : Type := mkMessage {
  m_id : Z;
  m_type : value;
  m_text : value;
  m_ts : Z;
  m_payload : value
}.

(** An element of [logs]: [{ level, msg, ts }]. *)
Record LogEntry : Type := mkLogEntry {
  l_level : value;
  l_msg : value;
  l_ts : Z
}.

(** One call of [_socket.emit(event, data)]. *)
Record Packet : Type := mkPacket {
  p_event : jsstring;
  p_data : value
}.

(** The socket object, as far as the module uses it: the calls of [emit]
    made on it, in order. *)
Record Socket : Type := mkSocket {
  emitted : list Packet
}.

(** The module state: the eight stores, [_socket] and [_msgId]. *)
Record Store : Type := mkStore {
  connected : bool;
  messages : list Message;
  logs : list LogEntry;
  status : value;
  pendingConfirm : value;
  pipelineDone : value;
  activeWorkflow : value;
  activeProject : value;
  _socket : option Socket;
  _msgId : Z
}.

(** The state when the module is loaded. *)
Definition initial : Store :=
  mkStore false [] [] VNull VNull VNull VNull (VStr []) None 0.

Definition set_connected (b : bool) (s : Store) : Store :=
  mkStore b (messages s) (logs s) (status s) (pendingConfirm s)
          (pipelineDone s) (activeWorkflow s) (activeProject s)
          (_socket s) (_msgId s).

Definition set_messages (l : list Message) (s : Store) : Store :=
  mkStore (connected s) l (logs s) (status s) (pendingConfirm s)
          (pipelineDone s) (activeWorkflow s) (activeProject s)
          (_socket s) (_msgId s).

Definition set_logs (l : list LogEntry) (s : Store) : Store :=
  mkStore (connected s) (messages s) l (status s) (pendingConfirm s)
          (pipelineDone s) (activeWorkflow s) (activeProject s)
          (_socket s) (_msgId s).

Definition set_status (v : value) (s : Store) : Store :=
  mkStore (connected s) (messages s) (logs s) v (pendingConfirm s)
          (pipelineDone s) (activeWorkflow s) (activeProject s)
          (_socket s) (_msgId s).

Definition set_pendingConfirm (v : value) (s : Store) : Store :=
  mkStore (connected s) (messages s) (logs s) (status s) v
          (pipelineDone s) (activeWorkflow s) (activeProject s)
          (_socket s) (_msgId s).

Definition set_pipelineDone (v : value) (s : Store) : Store :=
  mkStore (connected s) (messages s) (logs s) (status s) (pendingConfirm s)
          v (activeWorkflow s) (activeProject s)
          (_socket s) (_msgId s).

Definition set_activeWorkflow (v : value) (s : Store) : Store :=
  mkStore (connected s) (messages s) (logs s) (status s) (pendingConfirm s)
          (pipelineDone s) v (activeProject s)
          (_socket s) (_msgId s).

Definition set_activeProject (v : value) (s : Store) : Store :=
  mkStore (connected s) (messages s) (logs s) (status s) (pendingConfirm s)
          (pipelineDone s) (activeWorkflow s) v
          (_socket s) (_msgId s).

Definition set_socket (k : option Socket) (s : Store) : Store :=
  mkStore (connected s) (messages s) (logs s) (status s) (pendingConfirm s)
          (pipelineDone s) (activeWorkflow s) (activeProject s)
          k (_msgId s).

Definition set_msgId (n : Z) (s : Store) : Store :=
  mkStore (connected s) (messages s) (logs s) (status s) (pendingConfirm s)
          (pipelineDone s) (activeWorkflow s) (activeProject s)
          (_socket s) n.

(** The event names [EVT]. *)
Definition EVT_INPUT : jsstring := lit "agent:input".
Definition EVT_CONFIRM_RESP : jsstring := lit "agent:confirm_response".
Definition EVT_COMMAND : jsstring := lit "agent:command".

(** [const nextId = () => ++_msgId]. *)
Definition nextId (s : Store) : Z * Store :=
  let n := (_msgId s + 1)%Z in (n, set_msgId n s).

(** [addMessage(type, text, payload)]; [now] is [Date.now()]. *)
Definition addMessage (type text payload : value) (now : Z) (s : Store) : Store :=
  let (n, s1) := nextId s in
  set_messages (messages s1 ++ [mkMessage n type text now payload]) s1.

(** The log cap of the [EVT.LOG] handler. *)
Definition LOG_CAP : nat := 500.

(** *** Inbound handlers, as [connect()] registers them *)

Definition on_connect (now : Z) (s : Store) : completion Store :=
  Normal (addMessage (VStr (lit "system")) (VStr text_connected) VUndef now
            (set_connected true s)).

Definition on_disconnect (now : Z) (s : Store) : completion Store :=
  Normal (addMessage (VStr (lit "system")) (VStr text_disconnected) VUndef now
            (set_activeWorkflow VNull (set_connected false s))).

Definition on_message (data : value) (now : Z) (s : Store) : completion Store :=
  text0 <- get data "text" ;;
  let text := js_or text0 (VStr []) in
  type0 <- get data "type" ;;
  let type := js_or type0 (VStr (lit "assistant")) in
  payload0 <- get data "payload" ;;
  let payload := js_or payload0 VNull in
  s1 <- (if truthy payload then
           workflow <- get payload "workflow" ;;
           if truthy workflow then
             let s' := set_activeWorkflow workflow s in
             if negb (strict_eq_str workflow (lit "chat")) then
               project <- get payload "project" ;;
               Normal (set_activeProject (js_or project (VStr [])) s')
             else Normal s'
           else Normal s
         else Normal s) ;;
  s2 <- (if truthy payload then
           st <- get payload "status" ;;
           if strict_eq_str st (lit "completed") then
             workflow <- get payload "workflow" ;;
             if negb (strict_eq_str workflow (lit "chat")) then
               Normal (set_pipelineDone (VObj [(lit "status", st)]) s1)
             else Normal s1
           else Normal s1
         else Normal s1) ;;
  Normal (addMessage type text payload now s2).

Definition on_log (data : value) (now : Z) (s : Store) : completion Store :=
  message <- get data "message" ;;
  msg <- (if truthy message then Normal message
          else (m <- get data "msg" ;; Normal (js_or m (VStr [])))) ;;
  level0 <- get data "level" ;;
  let level := js_or level0 (VStr (lit "INFO")) in
  let next := logs s ++ [mkLogEntry level msg now] in
  Normal (set_logs (if (LOG_CAP <? length next)%nat
                    then slice_last LOG_CAP next else next) s).

Definition on_tool_call (data : value) (now : Z) (s : Store) : completion Store :=
  tool <- get data "tool" ;;
  args <- get data "args" ;;
  tool_s <- to_string tool ;;
  args_s <- (if is_string args then to_string args
             else match json_stringify args with
                  | Some j => Normal (slice0 120 j)
                  | None => TypeError
                  end) ;;
  Normal (set_logs (logs s ++
                    [mkLogEntry (VStr (lit "TOOL"))
                       (VStr (arrow_right ++ tool_s ++ two_spaces ++ args_s))
                       now]) s).

Definition on_tool_result (data : value) (now : Z) (s : Store) : completion Store :=
  tool <- get data "tool" ;;
  result <- get data "result" ;;
  tool_s <- to_string tool ;;
  result_s <- to_string result ;;
  Normal (set_logs (logs s ++
                    [mkLogEntry (VStr (lit "TOOL"))
                       (VStr (arrow_left ++ tool_s ++ two_spaces ++
                              slice0 120 result_s))
                       now]) s).

Definition on_status (data : value) (s : Store) : completion Store :=
  phase <- get data "phase" ;;
  step <- get data "step" ;;
  total <- get data "total" ;;
  description <- get data "description" ;;
  st <- get data "status" ;;
  Normal (set_status
            (VObj [(lit "phase", js_or phase VNull);
                   (lit "step", js_or step (VNum num_zero));
                   (lit "total", js_or total (VNum num_zero));
                   (lit "description", js_or description (VStr []));
                   (lit "status", js_or st VNull)]) s).

Definition on_confirm (data : value) (s : Store) : completion Store :=
  Normal (set_pendingConfirm data s).

Definition on_done (data : value) (s : Store) : completion Store :=
  Normal (set_status VNull (set_pipelineDone data s)).

Definition on_error (data : value) (now : Z) (s : Store) : completion Store :=
  error <- get data "error" ;;
  msg <- (if truthy error then Normal error
          else (m <- get data "msg" ;; Normal (js_or m (VStr text_unknown_error)))) ;;
  msg_s <- to_string msg ;;
  Normal (addMessage (VStr (lit "error")) (VStr (text_error_prefix ++ msg_s))
            VUndef now s).

(** *** Exported functions *)

(** [connect()]: creates the socket once; a later call returns the existing
    one.  The handlers above are registered on it. *)
Definition connect (s : Store) : Store :=
  match _socket s with
  | Some _ => s
  | None => set_socket (Some (mkSocket [])) s
  end.

(** [_socket.emit(event, data)] on the socket [k]. *)
Definition emit (k : Socket) (event : jsstring) (data : value) (s : Store) : Store :=
  set_socket (Some (mkSocket (emitted k ++ [mkPacket event data]))) s.

Definition sendInput (text : value) (now : Z) (s : Store) : Store :=
  match _socket s with
  | None => s
  | Some k =>
      emit k EVT_INPUT (VObj [(lit "text", text)])
        (addMessage (VStr (lit "user")) text VUndef now s)
  end.

Definition sendConfirm (data confirmed : value) (s : Store) : Store :=
  match _socket s with
  | None => s
  | Some k =>
      set_pendingConfirm VNull
        (emit k EVT_CONFIRM_RESP
           (VObj [(lit "response",
                   VStr (if truthy confirmed then lit "yes" else lit "no"))]) s)
  end.

Definition sendCommand (command data : value) (s : Store) : Store :=
  match _socket s with
  | None => s
  | Some k =>
      emit k EVT_COMMAND (VObj (spread_into [(lit "command", command)] data)) s
  end.

Definition clearMessages (s : Store) : Store :=
  set_pipelineDone VNull (set_messages [] s).

Definition clearLogs (s : Store) : Store :=
  set_logs [] s.

(** *** Runs *)

(** The events the socket delivers to the registered handlers; each carries
    the payload the handler receives. *)
Inductive Inbound : Type :=
| EvConnect
| EvDisconnect
| EvMessage (data : value)
| EvLog (data : value)
| EvToolCall (data : value)
| EvToolResult (data : value)
| EvStatus (data : value)
| EvConfirm (data : value)
| EvDone (data : value)
| EvError (data : value).

(** The handler registered for an event. *)
Definition handler (e : Inbound) (now : Z) (s : Store) : completion Store :=
  match e with
  | EvConnect => on_connect now s
  | EvDisconnect => on_disconnect now s
  | EvMessage data => on_message data now s
  | EvLog data => on_log data now s
  | EvToolCall data => on_tool_call data now s
  | EvToolResult data => on_tool_result data now s
  | EvStatus data => on_status data s
  | EvConfirm data => on_confirm data s
  | EvDone data => on_done data s
  | EvError data => on_error data now s
  end.

(** What can happen to the module: a call of an exported function, or the
    socket delivering an event at clock reading [now]. *)
Inductive Op : Type :=
| Connect
| Receive (e : Inbound) (now : Z)
| SendInput (text : value) (now : Z)
| SendConfirm (data confirmed : value)
| SendCommand (command data : value)
| ClearMessages
| ClearLogs.

(** One operation.  An event reaches a handler only once [connect()] has
    registered it.  Every handler evaluates all that can throw before it
    writes to a store, so a handler that throws leaves the state as it
    was. *)
Definition step (s : Store) (o : Op) : Store :=
  match o with
  | Connect => connect s
  | Receive e now =>
      match _socket s with
      | None => s
      | Some _ =>
          match handler e now s with
          | Normal s' => s'
          | TypeError => s
          end
      end
  | SendInput text now => sendInput text now s
  | SendConfirm data confirmed => sendConfirm data confirmed s
  | SendCommand command data => sendCommand command data s
  | ClearMessages => clearMessages s
  | ClearLogs => clearLogs s
  end.

Definition run (s : Store) (ops : list Op) : Store := fold_left step ops s.

(** The message carries a workflow tag: the test [payload && payload.workflow]
    of the message handler. *)
Definition carries_workflow (data : value) : bool :=
  match get data "payload" with
  | Normal payload0 =>
      let payload := js_or payload0 VNull in
      truthy payload &&
      match get payload "workflow" with
      | Normal workflow => truthy workflow
      | TypeError => false
      end
  | TypeError => false
  end.

(** A delivery discipline of the transport: along the run from [s], every
    [agent:message] event that reaches the handler with a workflow tag does
    so while [connected] is true.  Messages without a tag, and events
    before [connect()] has registered the handler, are not restricted. *)
Fixpoint workflow_messages_while_connected (s : Store) (ops : list Op) : bool :=
  match ops with
  | [] => true
  | o :: rest =>
      match o with
      | Receive (EvMessage data) _ =>
          match _socket s with
          | None => true
          | Some _ => negb (carries_workflow data) || connected s
          end
      | _ => true
      end && workflow_messages_while_connected (step s o) rest
  end.

(** The ids of the stored messages, in order. *)
Definition ids (s : Store) : list Z := map m_id (messages s).

(** The entries the [EVT.LOG] handler makes of one event: the one it
    appends to an empty log, none when it throws. *)
Definition logged (ev : value * Z) : list LogEntry :=
  match on_log (fst ev) (snd ev) initial with
  | Normal s' => logs s'
  | TypeError => []
  end.

(** A run that consists of [agent:log] events only. *)
Definition log_events (evs : list (value * Z)) : list Op :=
  map (fun ev => Receive (EvLog (fst ev)) (snd ev)) evs.

(** The events whose handlers read every field through a default. *)
Definition nullish (v : value) : bool :=
  match v with VUndef | VNull => true | _ => false end.

Definition reads_with_defaults (e : Inbound) : bool :=
  match e with
  | EvConnect | EvDisconnect | EvConfirm _ | EvDone _ => true
  | EvMessage data | EvLog data | EvStatus data => negb (nullish data)
  | EvToolCall _ | EvToolResult _ | EvError _ => false
  end.

(** The payloads of the build and chat scenario. *)
Definition payload_build : value :=
  VObj [(lit "workflow", VStr (lit "build"));
        (lit "project", VStr (lit "projects/x"))].

Definition payload_chat : value :=
  VObj [(lit "workflow", VStr (lit "chat"))].

(** What one operation does to [messages] and [_msgId]: nothing, one
    message appended under the next id, or the list emptied with the
    counter kept. *)
Inductive msg_effect (s s' : Store) : Prop :=
| Kept :
    messages s' = messages s -> _msgId s' = _msgId s -> msg_effect s s'
| Appended (m : Message) :
    messages s' = messages s ++ [m] ->
    m_id m = (_msgId s + 1)%Z ->
    _msgId s' = (_msgId s + 1)%Z ->
    msg_effect s s'
| Cleared :
    messages s' = [] -> _msgId s' = _msgId s -> msg_effect s s'.

(** The invariant of the message list: ids strictly increasing, none above
    the counter. *)
Definition ids_ok (s : Store) : Prop :=
  StronglySorted Z.lt (ids s) /\ Forall (fun i => (i <= _msgId s)%Z) (ids s).

(** A tool-call event with a string tool name and string arguments. *)
Definition tool_call_of (tool args : jsstring) : value :=
  VObj [(lit "tool", VStr tool); (lit "args", VStr args)].

End Store.

(** ** Observations on the store *)

Section Observations.
Context {num : NumberOps}.

(** The calls of [emit] made so far; none before the socket exists. *)
Definition outbox (s : Store) : list Packet :=
  match _socket s with
  | Some k => emitted k
  | None => []
  end.

(** The packets one operation emits on a fresh socket. *)
Definition packets_of (o : Op) : list Packet := outbox (step (connect initial) o).

(** The value of [connected] that the connect and disconnect events of a
    run leave, starting from [b]. *)
Definition last_connection (b : bool) (ops : list Op) : bool :=
  fold_left (fun acc o =>
               match o with
               | Receive EvConnect _ => true
               | Receive EvDisconnect _ => false
               | _ => acc
               end) ops b.

(** [data.k] where reading cannot throw, [undefined] otherwise. *)
Definition field (data : value) (k : string) : value :=
  match get data k with
  | Normal v => v
  | TypeError => VUndef
  end.

(** The entry of an [agent:log] event as the source writes it,
    [{ level: data.level || 'INFO', msg: data.message || data.msg || '', ts }];
    an event without a payload has none, its handler throws. *)
Definition entries_of_log_event (ev : value * Z) : list LogEntry :=
  if nullish (fst ev) then []
  else [mkLogEntry
          (js_or (field (fst ev) "level") (VStr (lit "INFO")))
          (js_or (field (fst ev) "message")
                 (js_or (field (fst ev) "msg") (VStr [])))
          (snd ev)].

(** The cells of the module state. *)
Inductive Cell : Type :=
| CellConnected | CellMessages | CellLogs | CellStatus | CellPendingConfirm
| CellPipelineDone | CellActiveWorkflow | CellActiveProject | CellSocket
| CellMsgId.

Definition cell_eqb (a b : Cell) : bool :=
  match a, b with
  | CellConnected, CellConnected | CellMessages, CellMessages
  | CellLogs, CellLogs | CellStatus, CellStatus
  | CellPendingConfirm, CellPendingConfirm
  | CellPipelineDone, CellPipelineDone
  | CellActiveWorkflow, CellActiveWorkflow
  | CellActiveProject, CellActiveProject
  | CellSocket, CellSocket | CellMsgId, CellMsgId => true
  | _, _ => false
  end.

(** The cell [c] holds the same in [s] and [s']. *)
Definition same_cell (c : Cell) (s s' : Store) : Prop :=
  match c with
  | CellConnected => connected s' = connected s
  | CellMessages => messages s' = messages s
  | CellLogs => logs s' = logs s
  | CellStatus => status s' = status s
  | CellPendingConfirm => pendingConfirm s' = pendingConfirm s
  | CellPipelineDone => pipelineDone s' = pipelineDone s
  | CellActiveWorkflow => activeWorkflow s' = activeWorkflow s
  | CellActiveProject => activeProject s' = activeProject s
  | CellSocket => _socket s' = _socket s
  | CellMsgId => _msgId s' = _msgId s
  end.

(** The cells that the code of an operation assigns: the calls of [set]
    and [update], of [nextId] and of [emit] in its body. *)
Definition writes (o : Op) : list Cell :=
  match o with
  | Connect => [CellSocket]
  | Receive EvConnect _ => [CellConnected; CellMessages; CellMsgId]
  | Receive EvDisconnect _ =>
      [CellConnected; CellActiveWorkflow; CellMessages; CellMsgId]
  | Receive (EvMessage _) _ =>
      [CellActiveWorkflow; CellActiveProject; CellPipelineDone;
       CellMessages; CellMsgId]
  | Receive (EvLog _) _ | Receive (EvToolCall _) _
  | Receive (EvToolResult _) _ => [CellLogs]
  | Receive (EvStatus _) _ => [CellStatus]
  | Receive (EvConfirm _) _ => [CellPendingConfirm]
  | Receive (EvDone _) _ => [CellPipelineDone; CellStatus]
  | Receive (EvError _) _ => [CellMessages; CellMsgId]
  | SendInput _ _ => [CellMessages; CellMsgId; CellSocket]
  | SendConfirm _ _ => [CellSocket; CellPendingConfirm]
  | SendCommand _ _ => [CellSocket]
  | ClearMessages => [CellMessages; CellPipelineDone]
  | ClearLogs => [CellLogs]
  end.

Definition may_write (o : Op) (c : Cell) : bool := existsb (cell_eqb c) (writes o).

End Observations.

(** ** Strings in the components *)

(** The code units that [trim] strips: white space and line terminators. *)
Definition is_white_space (u : N) : bool :=
  ((9 <=? u) && (u <=? 13) || (u =? 32) || (u =? 160) || (u =? 5760)
   || (8192 <=? u) && (u <=? 8202) || (u =? 8232) || (u =? 8233)
   || (u =? 8239) || (u =? 8287) || (u =? 12288) || (u =? 65279))%N.

Fixpoint trim_start (s : jsstring) : jsstring :=
  match s with
  | [] => []
  | u :: rest => if is_white_space u then trim_start rest else s
  end.

(** [s.trim()]. *)
Definition trim (s : jsstring) : jsstring :=
  rev (trim_start (rev (trim_start s))).

(** [s.startsWith(p)]. *)
Fixpoint starts_with (p s : jsstring) : bool :=
  match p, s with
  | [], _ => true
  | x :: p', y :: s' => N.eqb x y && starts_with p' s'
  | _ :: _, [] => false
  end.

(** [toLowerCase] on ASCII text, to run the input component on examples. *)
Definition ascii_to_lower (s : jsstring) : jsstring :=
  map (fun u => if ((65 <=? u) && (u <=? 90))%N then (u + 32)%N else u) s.

Definition is_empty (s : jsstring) : bool :=
  match s with [] => true | _ => false end.

(** [s.split(sep)] for a separator of one code unit. *)
Fixpoint split_on (sep : N) (s : jsstring) : list jsstring :=
  match s with
  | [] => [[]]
  | u :: rest =>
      if N.eqb u sep then [] :: split_on sep rest
      else match split_on sep rest with
           | part :: parts => (u :: part) :: parts
           | [] => [[u]]
           end
  end.

(** ** [components/Input.svelte] *)

Module Input.
Section Component.
Context {num : NumberOps}.

(** [String.prototype.toLowerCase], a built-in over all of Unicode, is a
    parameter of the component. *)
Variable toLowerCase : jsstring -> jsstring.

Record Command : Type := mkCommand {
  cmd : jsstring;
  hint : jsstring
}.

Definition COMMANDS : list Command :=
  [ mkCommand (lit "project")
      [112; 114; 111; 106; 101; 99; 116; 32; 47; 112; 97; 116; 104; 32; 45;
       32; 1086; 1090; 1082; 1088; 1099; 1090; 1100; 32; 1087; 1088; 1086;
       1077; 1082; 1090]%N;
    mkCommand (lit "resume")
      [114; 101; 115; 117; 109; 101; 32; 45; 32; 1087; 1088; 1086; 1076;
       1086; 1083; 1078; 1080; 1090; 1100; 32; 1087; 1088; 1077; 1088; 1074;
       1072; 1085; 1085; 1099; 1081; 32; 1087; 1072; 1081; 1087; 1083; 1072;
       1081; 1085]%N;
    mkCommand (lit "analyze")
      [97; 110; 97; 108; 121; 122; 101; 32; 45; 32; 1087; 1088; 1086; 1072;
       1085; 1072; 1083; 1080; 1079; 1080; 1088; 1086; 1074; 1072; 1090;
       1100; 32; 1087; 1088; 1086; 1077; 1082; 1090]%N;
    mkCommand (lit "reset")
      [114; 101; 115; 101; 116; 32; 45; 32; 1089; 1073; 1088; 1086; 1089;
       1080; 1090; 1100; 32; 1082; 1086; 1085; 1090; 1077; 1082; 1089;
       1090]%N ].

(** The variables of the component: the text bound to the textarea and the
    suggestion list. *)
Record State : Type := mkState {
  text : jsstring;
  suggestions : list Command
}.

Definition onInput (st : State) : State :=
  let val := toLowerCase (trim (text st)) in
  if starts_with (lit "/") val || (length val <? 1)%nat then
    mkState (text st) []
  else
    mkState (text st)
      (filter (fun c => starts_with val (cmd c) && negb (str_eqb (cmd c) val))
              COMMANDS).

Definition applySuggestion (c : jsstring) (st : State) : State :=
  mkState (c ++ lit " ") [].

(** [submit()]; [$connected] is read from the store, [now] is the clock
    reading of the echo. *)
Definition submit (now : Z) (st : State) (s : Store) : State * Store :=
  let val := trim (text st) in
  if is_empty val || negb (connected s) then (st, s)
  else (mkState [] [], sendInput (VStr val) now s).

(** The fields of the keyboard event that [onKeydown] reads. *)
Record KeyEvent : Type := mkKeyEvent {
  key : jsstring;
  shiftKey : bool
}.

Definition onKeydown (e : KeyEvent) (now : Z) (st : State) (s : Store)
  : State * Store :=
  let after_enter :=
    if str_eqb (key e) (lit "Enter") && negb (shiftKey e)
    then submit now st s else (st, s) in
  if str_eqb (key e) (lit "Escape")
  then (mkState (text (fst after_enter)) [], snd after_enter)
  else after_enter.

End Component.
End Input.

(** ** [App.svelte] *)

Module App.
Section Component.
Context {num : NumberOps}.

(** [resetSession()]: the store and the flag [showOnboarding]. *)
Definition resetSession (now : Z) (s : Store) : Store * bool :=
  (clearMessages (sendInput (VStr (lit "reset")) now s), true).

(** The path badge, [$activeProject.split('/').slice(-2).join('/')].  It is
    rendered when [$activeProject] is truthy; on anything but a string
    [split] is not a function and the call throws. *)
Definition path_badge (activeProject : value) : completion jsstring :=
  match activeProject with
  | VStr path => Normal (join (lit "/") (slice_last 2 (split_on 47 path)))
  | _ => TypeError
  end.

End Component.
End App.

(** ** [components/StatusBar.svelte] *)

Module StatusBar.
Section Component.
Context {num : NumberOps}.

(** [$pipelineDone.status], read when [$pipelineDone] is truthy. *)
Definition done_status (pipelineDone : value) : value :=
  match get pipelineDone "status" with
  | Normal st => st
  | TypeError => VUndef
  end.

(** The three classes of the completion badge. *)
Definition class_ok (pipelineDone : value) : bool :=
  strict_eq_str (done_status pipelineDone) (lit "completed")
  || strict_eq_str (done_status pipelineDone) (lit "success").

Definition class_warn (pipelineDone : value) : bool :=
  strict_eq_str (done_status pipelineDone) (lit "partial")
  || strict_eq_str (done_status pipelineDone) (lit "partial_success").

(** [!['completed','success','partial','partial_success'].includes(status)]. *)
Definition class_err (pipelineDone : value) : bool :=
  negb (existsb (strict_eq_str (done_status pipelineDone))
          [lit "completed"; lit "success"; lit "partial"; lit "partial_success"]).

End Component.
End StatusBar.

(** ** [components/Chat.svelte] *)

Module Chat.

(** [s.replace(/&/g, '&amp;')] and its two siblings. *)
Definition escape_amp (s : jsstring) : jsstring :=
  flat_map (fun u => if (u =? 38)%N then lit "&amp;" else [u]) s.

Definition escape_lt (s : jsstring) : jsstring :=
  flat_map (fun u => if (u =? 60)%N then lit "&lt;" else [u]) s.

Definition escape_gt (s : jsstring) : jsstring :=
  flat_map (fun u => if (u =? 62)%N then lit "&gt;" else [u]) s.

(** What the dot of a regular expression does not match. *)
Definition is_line_terminator (u : N) : bool :=
  ((u =? 10) || (u =? 13) || (u =? 8232) || (u =? 8233))%N.

(** The rest of [(.+?)d] once the group holds at least one code unit: the
    shortest run without a line terminator that is followed by [d].  The
    result is what the group gains and what follows the closing [d]. *)
Fixpoint scan_close (d s : jsstring) : option (jsstring * jsstring) :=
  if starts_with d s then Some ([], skipn (length d) s)
  else match s with
       | [] => None
       | u :: rest =>
           if is_line_terminator u then None
           else match scan_close d rest with
                | Some (more, after) => Some (u :: more, after)
                | None => None
                end
       end.

(** [(.+?)d] at the start of [body]: the group and what follows [d]. *)
Definition find_close (d body : jsstring) : option (jsstring * jsstring) :=
  match body with
  | [] => None
  | u :: rest =>
      if is_line_terminator u then None
      else match scan_close d rest with
           | Some (more, after) => Some (u :: more, after)
           | None => None
           end
  end.

(** [s.replace(/d(.+?)d/g, 'open$1close')] for a literal delimiter [d]:
    at each position a match is replaced and the search resumes after it,
    otherwise the code unit is copied.  [skip] counts the code units of
    the last match still to pass. *)
Fixpoint replace_delimited (d opening closing : jsstring) (skip : nat)
    (s : jsstring) : jsstring :=
  match s with
  | [] => []
  | u :: rest =>
      match skip with
      | S k => replace_delimited d opening closing k rest
      | O =>
          if starts_with d s then
            match find_close d (skipn (length d) s) with
            | Some (group, _) =>
                opening ++ group ++ closing ++
                replace_delimited d opening closing
                  (length d + length group + length d - 1) rest
            | None => u :: replace_delimited d opening closing 0 rest
            end
          else u :: replace_delimited d opening closing 0 rest
      end
  end.

(** [s.replace(/\n/g, '<br>')]. *)
Definition newline_to_br (s : jsstring) : jsstring :=
  flat_map (fun u => if (u =? 10)%N then lit "<br>" else [u]) s.

Section Component.
Context {num : NumberOps}.

(** [renderText(text)]; [text.replace] is a function on a string only. *)
Definition renderText (text : value) : completion jsstring :=
  match text with
  | VStr s =>
      Normal
        (newline_to_br
           (replace_delimited (lit "`") (lit "<code>") (lit "</code>") 0
              (replace_delimited (lit "**") (lit "<strong>") (lit "</strong>") 0
                 (escape_gt (escape_lt (escape_amp s))))))
  | _ => TypeError
  end.

End Component.

(** The markup that [renderText] writes: its five tags and three
    entities. *)
Definition MARKUP : list jsstring :=
  [lit "<strong>"; lit "</strong>"; lit "<code>"; lit "</code>"; lit "<br>";
   lit "&amp;"; lit "&lt;"; lit "&gt;"].

(** A code unit that is text in HTML: not [<], [>] or [&]. *)
Definition is_plain (u : N) : bool :=
  negb ((u =? 60) || (u =? 62) || (u =? 38))%N.

(** A string made of plain code units and pieces of [MARKUP] only. *)
Inductive html_safe : jsstring -> Prop :=
| safe_nil : html_safe []
| safe_unit (u : N) (rest : jsstring) :
    is_plain u = true -> html_safe rest -> html_safe (u :: rest)
| safe_markup (t rest : jsstring) :
    In t MARKUP -> html_safe rest -> html_safe (t ++ rest).

(** A code unit that occurs in no piece of markup and is plain text. *)
Definition is_separator (h : N) : bool :=
  is_plain h
  && forallb (fun t => forallb (fun x => negb (N.eqb x h)) t) MARKUP.

(** The three escapes together act on each code unit by itself. *)
Definition escape_unit (u : N) : jsstring :=
  (if u =? 38 then lit "&amp;"
   else if u =? 60 then lit "&lt;"
   else if u =? 62 then lit "&gt;"
   else [u])%N.

(** The code units that [renderText] treats specially. *)
Definition is_special (u : N) : bool :=
  ((u =? 38) || (u =? 60) || (u =? 62) || (u =? 42) || (u =? 96) || (u =? 10))%N.

End Chat.

(** ** [components/OnboardingModal.svelte] *)

Module Onboarding.

Definition text_analyze : jsstring :=                 (* "проанализируй проект" *)
  [1087; 1088; 1086; 1072; 1085; 1072; 1083; 1080; 1079; 1080; 1088; 1091;
   1081; 32; 1087; 1088; 1086; 1077; 1082; 1090]%N.
Definition text_research : jsstring :=                (* "исследуй проект" *)
  [1080; 1089; 1089; 1083; 1077; 1076; 1091; 1081; 32; 1087; 1088; 1086;
   1077; 1082; 1090]%N.

(** The variables of the component; [show] is bound to the flag of the
    parent, the two inputs and the select are bound to their variables. *)
Record Modal : Type := mkModal {
  show : bool;
  step : jsstring;
  selectedMode : jsstring;
  selectedType : jsstring;
  pathInput : jsstring;
  taskInput : jsstring
}.

(** The component as created, not shown. *)
Definition created : Modal :=
  mkModal false (lit "mode") [] (lit "other") [] [].

Definition selectMode (m : jsstring) (md : Modal) : Modal :=
  mkModal (show md) (lit "config") m (selectedType md)
          (if str_eqb m (lit "build") then lit "projects/" else []) [].

Definition back (md : Modal) : Modal :=
  if str_eqb (step md) (lit "config")
  then mkModal (show md) (lit "mode") [] (selectedType md)
               (pathInput md) (taskInput md)
  else md.

Definition close (md : Modal) : Modal :=
  mkModal false (lit "mode") [] (selectedType md) (pathInput md) (taskInput md).

(** The keys of [modeLabels], in the order of its entries. *)
Definition MODE_KEYS : list jsstring :=
  [lit "chat"; lit "analyze"; lit "research"; lit "build"].

(** [PROJECT_TYPES] of [lib/socket.js]: value and label. *)
Definition PROJECT_TYPES : list (jsstring * jsstring) :=
  [ (lit "web-frontend",
     [1042; 1077; 1073; 45; 1092; 1088; 1086; 1085; 1090; 1077; 1085; 1076]%N);
    (lit "backend-api", [1041; 1101; 1082; 1077; 1085; 1076; 32; 65; 80; 73]%N);
    (lit "fullstack", lit "Full-stack");
    (lit "mobile", [1052; 1086; 1073; 1072; 1081; 1083]%N);
    (lit "ml-data", lit "ML / Data");
    (lit "library",
     [1041; 1080; 1073; 1083; 1080; 1086; 1090; 1077; 1082; 1072; 32; 47; 32;
      83; 68; 75]%N);
    (lit "other", [1044; 1088; 1091; 1075; 1086; 1077]%N) ].

(** The [disabled] attribute of the submit button. *)
Definition submit_disabled (md : Modal) : bool :=
  is_empty (trim (pathInput md))
  || (str_eqb (selectedMode md) (lit "build") && is_empty (trim (taskInput md))).

(** A callback that [submit] hands to [setTimeout]: it reads [taskInput]
    when it runs, or sends a fixed text. *)
Inductive Timer : Type :=
| SendTask
| SendText (text : jsstring).

Section Component.
Context {num : NumberOps}.

(** [submit()]: the modal, the store and the callback scheduled, if any. *)
Definition submit (now : Z) (md : Modal) (s : Store)
  : Modal * Store * option Timer :=
  if is_empty (trim (pathInput md)) then (md, s, None)
  else
    let s1 := sendInput (VStr (lit "project " ++ trim (pathInput md))) now s in
    let timer :=
      if negb (is_empty (trim (taskInput md))) then Some SendTask
      else if str_eqb (selectedMode md) (lit "analyze") then Some (SendText text_analyze)
      else if str_eqb (selectedMode md) (lit "research") then Some (SendText text_research)
      else None in
    (close md, s1, timer).

(** The scheduled callback running at clock reading [now]. *)
Definition fire (t : Timer) (now : Z) (md : Modal) (s : Store) : Store :=
  match t with
  | SendTask => sendInput (VStr (trim (taskInput md))) now s
  | SendText text => sendInput (VStr text) now s
  end.

(** What the parent and the user can do to the modal; [Submit] carries the
    clock reading and the store of the moment. *)
Inductive Action : Type :=
| Open
| SelectMode (m : jsstring)
| Back
| Close
| TypePath (path : jsstring)
| TypeTask (task : jsstring)
| PickType (t : jsstring)
| Submit (now : Z) (s : Store).

(** What the template offers.  The parent can always show the modal, and
    the Escape key closes it shown or not.  The mode cards are rendered in
    the mode step of a shown modal, the form in its config step, the type
    select for the build mode only; the submit button can be disabled. *)
Definition offered (md : Modal) (a : Action) : bool :=
  match a with
  | Open | Close => true
  | SelectMode m =>
      show md && str_eqb (step md) (lit "mode") && existsb (str_eqb m) MODE_KEYS
  | Back | TypePath _ | TypeTask _ =>
      show md && str_eqb (step md) (lit "config")
  | PickType t =>
      show md && str_eqb (step md) (lit "config")
      && str_eqb (selectedMode md) (lit "build")
      && existsb (fun pt => str_eqb t (fst pt)) PROJECT_TYPES
  | Submit _ _ =>
      show md && str_eqb (step md) (lit "config") && negb (submit_disabled md)
  end.

Definition act (md : Modal) (a : Action) : Modal :=
  if offered md a then
    match a with
    | Open => mkModal true (step md) (selectedMode md) (selectedType md)
                      (pathInput md) (taskInput md)
    | SelectMode m => selectMode m md
    | Back => back md
    | Close => close md
    | TypePath path => mkModal (show md) (step md) (selectedMode md)
                               (selectedType md) path (taskInput md)
    | TypeTask task => mkModal (show md) (step md) (selectedMode md)
                               (selectedType md) (pathInput md) task
    | PickType t => mkModal (show md) (step md) (selectedMode md) t
                            (pathInput md) (taskInput md)
    | Submit now s => fst (fst (submit now md s))
    end
  else md.

End Component.

(** The states the modal can be in. *)
Definition modal_ok (md : Modal) : Prop :=
  (step md = lit "mode" /\ selectedMode md = []) \/
  (show md = true /\ step md = lit "config" /\
   In (selectedMode md) MODE_KEYS).

End Onboarding.

(** * Properties *)

Unset Implicit Arguments.

(** ** Case analysis of a handler *)

Ltac break_match :=
  match goal with
  | H : context [match ?x with _ => _ end] |- _ => destruct x eqn:?
  | |- context [match ?x with _ => _ end] => destruct x eqn:?
  end.

Ltac invert_normals :=
  repeat match goal with
         | H : Normal _ = Normal _ |- _ => injection H as H; subst
         | H : TypeError = Normal _ |- _ => discriminate H
         | H : Normal _ = TypeError |- _ => discriminate H
         end.

Ltac handler_cases :=
  unfold handler, on_connect, on_disconnect, on_message, on_log,
    on_tool_call, on_tool_result, on_status, on_confirm, on_done, on_error,
    bind in *;
  repeat break_match; invert_normals.

Section Properties.
Context {num : NumberOps}.

(** ** Strings and property lookup *)

Lemma str_eqb_refl (a : jsstring) : str_eqb a a = true.
Proof.
  induction a as [|x a IH]; simpl; [reflexivity|].
  now rewrite N.eqb_refl, IH.
Qed.

Lemma str_eqb_eq (a b : jsstring) : str_eqb a b = true <-> a = b.
Proof.
  split.
  - revert b; induction a as [|x a IH]; intros [|y b] H; simpl in H;
      try discriminate; [reflexivity|].
    apply andb_true_iff in H as [Hx Hab].
    apply N.eqb_eq in Hx. apply IH in Hab. now subst.
  - intros ->. apply str_eqb_refl.
Qed.

(** A property read yields something other than [undefined] only on an
    object. *)
Lemma get_defined_is_object (v x : value) (k : string) :
  get v k = Normal x -> x <> VUndef -> exists props, v = VObj props.
Proof.
  destruct v; simpl; intros H Hx; try discriminate;
    try (injection H as <-; now contradict Hx).
  now eexists.
Qed.

Lemma truthy_not_undef (v : value) : truthy v = true -> v <> VUndef.
Proof. now destruct v. Qed.

(** Reading a property of anything but [undefined] and [null] completes. *)
Lemma get_present (v : value) (k : string) :
  nullish v = false -> exists x, get v k = Normal x.
Proof.
  destruct v; simpl; intros H; try discriminate; now eexists.
Qed.

(** ** Outbound calls without a socket *)

(** C2, as the code has it: in every state in which the socket has not been
    created ([connect()] was never called, [_socket] is null), [sendInput],
    [sendConfirm] and [sendCommand] return the state as it was: no store is
    written, the id counter stays and, there being no socket, nothing is
    emitted.  The guard of the three functions is [!_socket], not the
    [connected] store. *)
Theorem send_without_socket_is_noop
    (s : Store) (text data confirmed command extra : value) (now : Z) :
  _socket s = None ->
  sendInput text now s = s /\
  sendConfirm data confirmed s = s /\
  sendCommand command extra s = s.
Proof.
  intros Hsock. unfold sendInput, sendConfirm, sendCommand.
  rewrite Hsock. repeat split.
Qed.

(** ** Pending confirmation *)

(** C5: whatever the pending-confirmation cell holds, the [EVT.CONFIRM]
    handler completes and leaves exactly the received record in it; and
    [sendConfirm], with a truthy or a falsy answer, emits one
    [agent:confirm_response] carrying yes or no and leaves the cell null.
    The state is any state with the socket created, which is when the
    handler is registered. *)
Theorem confirm_replaces_and_response_clears
    (s : Store) (k : Socket) (request data confirmed : value) :
  _socket s = Some k ->
  exists s1,
    on_confirm request s = Normal s1 /\
    pendingConfirm s1 = request /\
    pendingConfirm (sendConfirm data confirmed s1) = VNull /\
    _socket (sendConfirm data confirmed s1) =
      Some (mkSocket (emitted k ++
        [mkPacket EVT_CONFIRM_RESP
           (VObj [(lit "response",
                   VStr (if truthy confirmed then lit "yes" else lit "no"))])])).
Proof.
  intros Hsock. exists (set_pendingConfirm request s).
  split; [reflexivity|]. split; [reflexivity|].
  unfold sendConfirm. simpl. rewrite Hsock. simpl. split; reflexivity.
Qed.

(** ** Completion *)

(** C9: the [EVT.DONE] handler completes on every payload and every state;
    afterwards [pipelineDone] is the received record and [status] is null,
    whatever [status] held before. *)
Theorem done_sets_pipeline_and_clears_status (s : Store) (data : value) (now : Z) :
  exists s',
    handler (EvDone data) now s = Normal s' /\
    pipelineDone s' = data /\
    status s' = VNull.
Proof.
  exists (set_status VNull (set_pipelineDone data s)).
  repeat split.
Qed.

(** ** Workflow and project *)

(** C7: in every state, a message whose payload is
    [{workflow: "build", project: "projects/x"}] sets [activeWorkflow] to
    "build" and [activeProject] to "projects/x"; in every state, hence also
    in any later one, a message whose payload is [{workflow: "chat"}] sets
    [activeWorkflow] to "chat" and leaves [activeProject] as it was. *)
Theorem message_build_then_chat
    (s s' : Store) (data1 data2 : value) (now1 now2 : Z) :
  get data1 "payload" = Normal payload_build ->
  get data2 "payload" = Normal payload_chat ->
  (exists s1,
     on_message data1 now1 s = Normal s1 /\
     activeWorkflow s1 = VStr (lit "build") /\
     activeProject s1 = VStr (lit "projects/x")) /\
  (exists s2,
     on_message data2 now2 s' = Normal s2 /\
     activeWorkflow s2 = VStr (lit "chat") /\
     activeProject s2 = activeProject s').
Proof.
  intros H1 H2. split.
  - destruct (get_defined_is_object _ _ _ H1) as [props ->]; [discriminate|].
    unfold on_message. rewrite H1. simpl.
    eexists. split; [reflexivity|]. split; reflexivity.
  - destruct (get_defined_is_object _ _ _ H2) as [props ->]; [discriminate|].
    unfold on_message. rewrite H2. simpl.
    eexists. split; [reflexivity|]. split; reflexivity.
Qed.

(** C10: a message whose payload carries a workflow tag (a truthy
    [payload.workflow]) other than "chat" and no [project] makes
    [activeProject] the empty string, whatever path it held, and makes the
    tag the active workflow. *)
Theorem message_without_project_erases_project
    (s : Store) (data payload workflow : value) (now : Z) :
  get data "payload" = Normal payload ->
  get payload "workflow" = Normal workflow ->
  truthy workflow = true ->
  strict_eq_str workflow (lit "chat") = false ->
  get payload "project" = Normal VUndef ->
  exists s',
    on_message data now s = Normal s' /\
    activeProject s' = VStr [] /\
    activeWorkflow s' = workflow.
Proof.
  intros Hdata Hwf Htag Hchat Hproj.
  destruct (get_defined_is_object _ _ _ Hwf (truthy_not_undef _ Htag)) as [pp ->].
  destruct (get_defined_is_object _ _ _ Hdata) as [dp ->]; [discriminate|].
  unfold on_message. rewrite Hdata.
  destruct (get (VObj dp) "text") as [text0|] eqn:Htext; [|discriminate Htext].
  destruct (get (VObj dp) "type") as [type0|] eqn:Htype; [|discriminate Htype].
  cbn [bind]. change (js_or (VObj pp) VNull) with (VObj pp). cbn [truthy].
  rewrite Hwf. cbn [bind]. rewrite Htag, Hchat. cbn [negb].
  rewrite Hproj. cbn [bind].
  destruct (get (VObj pp) "status") as [st|] eqn:Hst; [|discriminate Hst].
  cbn [bind].
  destruct (strict_eq_str st (lit "completed")); cbn [bind]; rewrite ?Hchat;
    cbn [negb bind]; eexists; (split; [reflexivity|]); split; reflexivity.
Qed.

Lemma run_cons (s : Store) (o : Op) (ops : list Op) :
  run s (o :: ops) = run (step s o) ops.
Proof. reflexivity. Qed.

(** ** The connection flag and the active workflow *)

(** A message without a workflow tag leaves the workflow and the flag. *)
Lemma untagged_message_keeps_workflow (data : value) (now : Z) (s s' : Store) :
  carries_workflow data = false ->
  on_message data now s = Normal s' ->
  activeWorkflow s' = activeWorkflow s /\ connected s' = connected s.
Proof.
  unfold carries_workflow, on_message, bind. intros Htag H.
  repeat break_match; invert_normals; simpl in *;
    try discriminate; try congruence; split; reflexivity.
Qed.

(** A message with a workflow tag makes it the active workflow. *)
Lemma tagged_message_sets_workflow (data : value) (now : Z) (s : Store) :
  carries_workflow data = true ->
  exists s',
    on_message data now s = Normal s' /\
    truthy (activeWorkflow s') = true /\
    connected s' = connected s.
Proof.
  unfold carries_workflow. intros Htag.
  destruct (get data "payload") as [payload0|] eqn:Hpayload; [|discriminate].
  cbv zeta in Htag. apply andb_true_iff in Htag as [Hp Hw].
  destruct (get (js_or payload0 VNull) "workflow") as [workflow|] eqn:Hwf;
    [|discriminate].
  assert (Hn : nullish data = false).
  { destruct data; try reflexivity; discriminate Hpayload. }
  assert (Hpn : nullish (js_or payload0 VNull) = false).
  { now destruct (js_or payload0 VNull). }
  unfold on_message.
  destruct (get_present data "text" Hn) as [text0 ->].
  destruct (get_present data "type" Hn) as [type0 ->].
  rewrite Hpayload. cbn [bind]. rewrite Hp, Hwf. cbn [bind]. rewrite Hw.
  destruct (get_present (js_or payload0 VNull) "project" Hpn) as [project ->].
  destruct (get_present (js_or payload0 VNull) "status" Hpn) as [st ->].
  cbn [bind].
  destruct (strict_eq_str workflow (lit "chat")),
    (strict_eq_str st (lit "completed")); cbn [negb bind];
    eexists; (split; [reflexivity|]); split; simpl; auto.
Qed.

Lemma step_keeps_workflow_cleared (s : Store) (o : Op) :
  (connected s = false -> activeWorkflow s = VNull) ->
  match o with
  | Receive (EvMessage data) _ =>
      _socket s = None \/ carries_workflow data = false \/ connected s = true
  | _ => True
  end ->
  connected (step s o) = false -> activeWorkflow (step s o) = VNull.
Proof.
  intros Inv Hdeliv.
  destruct o as [|e now|text now|data confirmed|command data| |]; simpl.
  - unfold connect. destruct (_socket s); simpl; exact Inv.
  - destruct (_socket s) as [k|] eqn:Hk; [|exact Inv].
    destruct e as [| |data| | | | | | |];
      try (handler_cases; simpl in *; intros Hc;
           try reflexivity; try discriminate; try congruence; auto; fail).
    cbn [handler].
    destruct (on_message data now s) as [s'|] eqn:Hm; [|exact Inv].
    destruct Hdeliv as [Hnone|[Htag|Hconn]]; [discriminate Hnone| |].
    + destruct (untagged_message_keeps_workflow _ _ _ _ Htag Hm) as [Hw Hc].
      rewrite Hw, Hc. exact Inv.
    + assert (Hc : connected s' = connected s).
      { revert Hm. clear. intros Hm. unfold on_message, bind in Hm.
        repeat break_match; invert_normals; reflexivity. }
      rewrite Hc, Hconn. discriminate.
  - unfold sendInput. destruct (_socket s); simpl; exact Inv.
  - unfold sendConfirm. destruct (_socket s); simpl; exact Inv.
  - unfold sendCommand. destruct (_socket s); simpl; exact Inv.
  - exact Inv.
  - exact Inv.
Qed.

Lemma run_keeps_workflow_cleared (ops : list Op) :
  forall s,
    (connected s = false -> activeWorkflow s = VNull) ->
    workflow_messages_while_connected s ops = true ->
    connected (run s ops) = false -> activeWorkflow (run s ops) = VNull.
Proof.
  induction ops as [|o ops IH]; intros s Inv Hd; simpl in *.
  - exact Inv.
  - apply andb_true_iff in Hd as [Ho Hrest].
    apply IH; [|exact Hrest].
    apply step_keeps_workflow_cleared; [exact Inv|].
    destruct o as [|e now| | | | |]; try exact I.
    destruct e; try exact I.
    destruct (_socket s); [|now left].
    apply orb_true_iff in Ho as [Ho|Ho]; [|now right; right].
    right; left. now apply negb_true_iff.
Qed.

(** A run that breaks the discipline passes through a state with
    [connected] false and a workflow active: the state right after the
    first tagged message handled while [connected] is false. *)
Lemma run_breaks_workflow_cleared (ops : list Op) :
  forall s,
    (connected s = true -> _socket s <> None) ->
    workflow_messages_while_connected s ops = false ->
    exists ops1 data now ops2,
      ops = ops1 ++ Receive (EvMessage data) now :: ops2 /\
      connected (run s (ops1 ++ [Receive (EvMessage data) now])) = false /\
      truthy (activeWorkflow (run s (ops1 ++ [Receive (EvMessage data) now]))) = true.
Proof.
  induction ops as [|o ops IH]; intros s Hinv Hd; simpl in Hd; [discriminate|].
  apply andb_false_iff in Hd as [Ho|Hrest].
  - destruct o as [|e now| | | | |]; try discriminate Ho.
    destruct e as [| |data| | | | | | |]; try discriminate Ho.
    destruct (_socket s) as [k|] eqn:Hk; [|discriminate Ho].
    apply orb_false_iff in Ho as [Htag Hconn].
    apply negb_false_iff in Htag.
    destruct (tagged_message_sets_workflow data now s Htag) as [s' [Hm [Hw Hc]]].
    exists [], data, now, ops. split; [reflexivity|].
    simpl. rewrite Hk, Hm. split; [congruence|exact Hw].
  - assert (Hinv' : connected (step s o) = true -> _socket (step s o) <> None).
    { destruct (_socket s) as [k|] eqn:Hk.
      - intros _.
        assert (Hs : _socket s <> None) by (rewrite Hk; discriminate).
        clear - Hs. revert Hs.
        destruct o as [|e now|text now|data confirmed|command data| |]; simpl;
          intros Hs; unfold connect, sendInput, sendConfirm, sendCommand;
          destruct (_socket s) as [k|] eqn:Hk; try (now contradict Hs);
          simpl; rewrite ?Hk; try discriminate.
        destruct (handler e now s) as [s'|] eqn:He; [|now rewrite Hk].
        assert (Hsock : _socket s' = _socket s).
        { destruct e; handler_cases; reflexivity. }
        rewrite Hsock, Hk. discriminate.
      - assert (Hfalse : connected s = false).
        { destruct (connected s); [|reflexivity]. now destruct (Hinv eq_refl). }
        destruct o as [|e now|text now|data confirmed|command data| |]; simpl;
          unfold connect, sendInput, sendConfirm, sendCommand; rewrite ?Hk;
          simpl; congruence. }
    destruct (IH (step s o) Hinv' Hrest) as (ops1 & data & now & ops2 & Heq & Hc & Hw).
    exists (o :: ops1), data, now, ops2. split; [now rewrite Heq|].
    simpl. split; assumption.
Qed.

(** C8, as the code has it: in every state the disconnect handler completes
    and leaves [connected] false and [activeWorkflow] null, whatever the
    workflow was; and [connected = false] implies [activeWorkflow = null] in
    every state reached from the initial one by a run in which every message
    that reaches the handler with a workflow tag does so while [connected]
    is true.  No handler tests [connected], so the implication rests on that
    discipline of the transport, and on no more than that: a run that
    breaks it passes through a state with [connected] false and a workflow
    active. *)
Theorem disconnect_clears_active_workflow (s : Store) (now : Z) (ops : list Op) :
  (exists s',
     handler EvDisconnect now s = Normal s' /\
     connected s' = false /\
     activeWorkflow s' = VNull) /\
  (workflow_messages_while_connected initial ops = true ->
   connected (run initial ops) = false ->
   activeWorkflow (run initial ops) = VNull) /\
  (workflow_messages_while_connected initial ops = false ->
   exists ops1 data at_ ops2,
     ops = ops1 ++ Receive (EvMessage data) at_ :: ops2 /\
     connected (run initial (ops1 ++ [Receive (EvMessage data) at_])) = false /\
     truthy (activeWorkflow (run initial (ops1 ++ [Receive (EvMessage data) at_])))
     = true).
Proof.
  split; [|split].
  - eexists. split; [reflexivity|]. split; reflexivity.
  - apply run_keeps_workflow_cleared. reflexivity.
  - apply run_breaks_workflow_cleared. discriminate.
Qed.

(** ** Message ids *)

Lemma addMessage_effect (type text payload : value) (now : Z) (s s0 : Store) :
  messages s0 = messages s -> _msgId s0 = _msgId s ->
  msg_effect s (addMessage type text payload now s0).
Proof.
  intros Hm Hc.
  apply Appended with (m := mkMessage (_msgId s + 1) type text now payload);
    unfold addMessage; simpl; now rewrite ?Hm, ?Hc.
Qed.

Lemma handler_msg_effect (e : Inbound) (now : Z) (s s' : Store) :
  handler e now s = Normal s' -> msg_effect s s'.
Proof.
  intros H.
  destruct e; handler_cases;
    first [ apply addMessage_effect; reflexivity
          | apply Kept; reflexivity ].
Qed.

Lemma step_msg_effect (s : Store) (o : Op) : msg_effect s (step s o).
Proof.
  destruct o as [|e now|text now|data confirmed|command data| |]; simpl.
  - unfold connect. destruct (_socket s); apply Kept; reflexivity.
  - destruct (_socket s); [|apply Kept; reflexivity].
    destruct (handler e now s) as [s'|] eqn:He; [|apply Kept; reflexivity].
    exact (handler_msg_effect _ _ _ _ He).
  - unfold sendInput. destruct (_socket s); [|apply Kept; reflexivity].
    apply Appended with (m := mkMessage (_msgId s + 1) (VStr (lit "user")) text now VUndef);
      reflexivity.
  - unfold sendConfirm. destruct (_socket s); apply Kept; reflexivity.
  - unfold sendCommand. destruct (_socket s); apply Kept; reflexivity.
  - apply Cleared; reflexivity.
  - apply Kept; reflexivity.
Qed.

Lemma sorted_snoc (l : list Z) (x : Z) :
  StronglySorted Z.lt l -> Forall (fun i => (i < x)%Z) l ->
  StronglySorted Z.lt (l ++ [x]).
Proof.
  induction 1 as [|a l Hs IH Ha]; intros Hlt; simpl.
  - repeat constructor.
  - inversion Hlt as [|? ? Hax Hl]; subst.
    constructor; [now apply IH|].
    apply Forall_app. split; [exact Ha|]. now repeat constructor.
Qed.

Lemma effect_keeps_ids_ok (s s' : Store) :
  msg_effect s s' -> ids_ok s -> ids_ok s'.
Proof.
  unfold ids_ok, ids.
  intros [Hm Hc | m Hm Hid Hc | Hm Hc] [Hs Hb]; rewrite Hm, Hc.
  - now split.
  - rewrite map_app. simpl. rewrite Hid. split.
    + apply sorted_snoc; [exact Hs|].
      eapply Forall_impl; [|exact Hb]. simpl. intros; lia.
    + apply Forall_app. split.
      * eapply Forall_impl; [|exact Hb]. simpl. intros; lia.
      * repeat constructor. lia.
  - split; constructor.
Qed.

(** A message present after the operation was present before it, or its id
    is above the counter as it stood before. *)
Lemma effect_fresh (s s' : Store) :
  msg_effect s s' ->
  (_msgId s <= _msgId s')%Z /\
  Forall (fun m' => In m' (messages s) \/ (_msgId s < m_id m')%Z) (messages s').
Proof.
  intros [Hm Hc | m Hm Hid Hc | Hm Hc]; rewrite Hm, Hc; (split; [lia|]).
  - apply Forall_forall. intros; now left.
  - apply Forall_app. split.
    + apply Forall_forall. intros; now left.
    + constructor; [right; lia | constructor].
  - constructor.
Qed.

Lemma run_ids_ok (ops : list Op) :
  forall s, ids_ok s -> ids_ok (run s ops).
Proof.
  induction ops as [|o ops IH]; intros s Hs; simpl; [exact Hs|].
  apply IH. exact (effect_keeps_ids_ok _ _ (step_msg_effect s o) Hs).
Qed.

Lemma run_fresh (ops : list Op) :
  forall s,
    (_msgId s <= _msgId (run s ops))%Z /\
    Forall (fun m' => In m' (messages s) \/ (_msgId s < m_id m')%Z)
           (messages (run s ops)).
Proof.
  induction ops as [|o ops IH]; intros s; simpl.
  - split; [lia|]. apply Forall_forall. intros; now left.
  - destruct (IH (step s o)) as [Hc Hf].
    destruct (effect_fresh _ _ (step_msg_effect s o)) as [Hc1 Hf1].
    split; [lia|].
    rewrite Forall_forall in *. intros m' Hin.
    destruct (Hf m' Hin) as [Hold | Hnew]; [|right; lia].
    exact (Hf1 m' Hold).
Qed.

Lemma initial_ids_ok : ids_ok initial.
Proof. split; constructor. Qed.

(** C4: take any run from the initial state (events of every kind with any
    payload, [sendInput], [clearMessages] and the other calls, in any
    order) and cut it anywhere into [ops1] and [ops2].  At the end the
    stored ids are strictly increasing; every message stored at the end was
    already stored at the cut, or its id is greater than the id of every
    message stored at the cut (so no id seen at any moment is given again,
    cleared or not); and [clearMessages] empties the list without touching
    the counter [_msgId]. *)
Theorem message_ids_increase_and_are_never_reused (ops1 ops2 : list Op) :
  let s1 := run initial ops1 in
  let s2 := run s1 ops2 in
  StronglySorted Z.lt (ids s2) /\
  Forall (fun m' =>
            In m' (messages s1) \/
            Forall (fun m => (m_id m < m_id m')%Z) (messages s1))
         (messages s2) /\
  messages (clearMessages s2) = [] /\
  _msgId (clearMessages s2) = _msgId s2.
Proof.
  intros s1 s2.
  assert (H1 : ids_ok s1) by (apply run_ids_ok, initial_ids_ok).
  assert (H2 : ids_ok s2) by (apply run_ids_ok, H1).
  split; [exact (proj1 H2)|].
  split; [|split; reflexivity].
  destruct (run_fresh ops2 s1) as [_ Hf].
  eapply Forall_impl; [|exact Hf].
  intros m' Hm'. simpl in Hm'. destruct Hm' as [Hold | Hnew]; [now left|right].
  destruct H1 as [_ Hb]. unfold ids in Hb. rewrite Forall_map in Hb.
  eapply Forall_impl; [|exact Hb]. simpl. intros m Hm. lia.
Qed.

(** ** The log *)

Lemma slice_last_length {A : Type} (n : nat) (l : list A) :
  length (slice_last n l) = Nat.min n (length l).
Proof. unfold slice_last. rewrite length_skipn. lia. Qed.

Lemma slice_last_short {A : Type} (n : nat) (l : list A) :
  length l <= n -> slice_last n l = l.
Proof.
  intros H. unfold slice_last.
  replace (length l - n) with 0 by lia. reflexivity.
Qed.

(** The last [n] of a list are the last [n] of its last [n] followed by
    more. *)
Lemma slice_last_app {A : Type} (n : nat) (l more : list A) :
  slice_last n (slice_last n l ++ more) = slice_last n (l ++ more).
Proof.
  unfold slice_last. rewrite !length_app, length_skipn.
  set (k := length l - n).
  replace (length l + length more - n)
    with ((length l - k + length more - n) + k) by (unfold k; lia).
  rewrite <- skipn_skipn, (skipn_app k l more).
  replace (k - length l) with 0 by (unfold k; lia). reflexivity.
Qed.

(** The cap of the log handler keeps the last [LOG_CAP] entries. *)
Lemma log_cap_is_slice_last (next : list LogEntry) :
  (if LOG_CAP <? length next then slice_last LOG_CAP next else next)
  = slice_last LOG_CAP next.
Proof.
  destruct (Nat.ltb_spec LOG_CAP (length next)) as [H|H]; [reflexivity|].
  now rewrite slice_last_short.
Qed.

Lemma on_log_appends (data : value) (now : Z) (s : Store) :
  match on_log data now s with
  | Normal s' =>
      logs s' = slice_last LOG_CAP (logs s ++ logged (data, now)) /\
      _socket s' = _socket s
  | TypeError => logged (data, now) = []
  end.
Proof.
  assert (Hone : forall e : LogEntry,
             (if LOG_CAP <? length ([] ++ [e]) then slice_last LOG_CAP ([] ++ [e])
              else [] ++ [e]) = [e]) by reflexivity.
  unfold logged, on_log. simpl fst. simpl snd.
  destruct (get data "message") as [m|]; cbn [bind]; [|reflexivity].
  destruct (truthy m); cbn [bind].
  - destruct (get data "level") as [lv|]; cbn [bind]; [|reflexivity].
    cbn [logs set_logs _socket initial]. rewrite Hone, log_cap_is_slice_last.
    split; reflexivity.
  - destruct (get data "msg") as [m'|]; cbn [bind]; [|reflexivity].
    destruct (get data "level") as [lv|]; cbn [bind]; [|reflexivity].
    cbn [logs set_logs _socket initial]. rewrite Hone, log_cap_is_slice_last.
    split; reflexivity.
Qed.

Lemma run_log_events (evs : list (value * Z)) :
  forall (s : Store) (k : Socket) (before : list LogEntry),
    _socket s = Some k ->
    logs s = slice_last LOG_CAP before ->
    logs (run s (log_events evs))
    = slice_last LOG_CAP (before ++ flat_map logged evs).
Proof.
  induction evs as [|[data now] evs IH]; intros s k before Hk Hl; simpl.
  - now rewrite app_nil_r.
  - rewrite Hk.
    pose proof (on_log_appends data now s) as H.
    destruct (on_log data now s) as [s'|].
    + destruct H as [Hs' Hsock].
      rewrite app_assoc.
      apply IH with (k := k); [congruence|].
      rewrite Hs', Hl. apply slice_last_app.
    + rewrite H. simpl. now apply IH with (k := k).
Qed.

(** What the log handler appends to an empty log is the entry of the
    event. *)
Lemma logged_is_the_entry (ev : value * Z) :
  logged ev = entries_of_log_event ev.
Proof.
  destruct ev as [data now]. unfold logged, entries_of_log_event, on_log, field.
  simpl fst. simpl snd.
  destruct (nullish data) eqn:Hn.
  - destruct data; try discriminate Hn; reflexivity.
  - destruct (get_present data "message" Hn) as [message ->].
    destruct (get_present data "msg" Hn) as [m ->].
    destruct (get_present data "level" Hn) as [level ->].
    cbn [bind]. unfold js_or.
    destruct (truthy message); reflexivity.
Qed.

(** Log events alone: after any sequence of [agent:log] events, with any
    payloads, the log holds at most 500 entries, and they are the last 500
    of the entries of the events in arrival order, where the entry of an
    event is [{ level: data.level || 'INFO', msg: data.message || data.msg
    || '', ts }] and an event without a payload leaves none. *)
Theorem log_events_keep_the_last_500 (evs : list (value * Z)) :
  let s := run (connect initial) (log_events evs) in
  length (logs s) <= 500 /\
  logs s = slice_last 500 (flat_map entries_of_log_event evs).
Proof.
  intros s.
  assert (H : logs s = slice_last LOG_CAP ([] ++ flat_map logged evs)).
  { apply run_log_events with (k := mkSocket []); reflexivity. }
  simpl in H.
  rewrite (flat_map_ext _ _ logged_is_the_entry) in H.
  split; [|exact H].
  rewrite H, slice_last_length. unfold LOG_CAP. lia.
Qed.

(** The tool-call handler appends without a cap. *)
Lemma run_tool_calls (tool args : jsstring) (now : Z) (n : nat) :
  forall (s : Store) (k : Socket),
    _socket s = Some k ->
    length (logs (run s (repeat (Receive (EvToolCall (tool_call_of tool args)) now) n)))
    = length (logs s) + n.
Proof.
  induction n as [|n IH]; intros s k Hk; simpl; [lia|].
  rewrite Hk. rewrite IH with (k := k); [|exact Hk].
  simpl. rewrite length_app. simpl. lia.
Qed.

(** String arguments go into the entry whole, however long:
    [slice(0, 120)] is applied only in the branch that stringifies a
    non-string. *)
Lemma tool_call_string_args_verbatim
    (s : Store) (now : Z) (tool args : jsstring) :
  handler (EvToolCall (tool_call_of tool args)) now s =
  Normal (set_logs
            (logs s ++
             [mkLogEntry (VStr (lit "TOOL"))
                (VStr (arrow_right ++ tool ++ two_spaces ++ args)) now]) s).
Proof.
  unfold handler, on_tool_call, tool_call_of. simpl. reflexivity.
Qed.

(** Arguments other than strings: when [args] is not a string and
    [JSON.stringify(args)] is the string [j], the handler appends exactly
    one TOOL-level entry whose text is the arrow, the tool name, two spaces
    and the first 120 code units of [j]. *)
Theorem tool_call_json_args_are_truncated
    (s : Store) (now : Z) (data tool args : value) (tool_s j : jsstring) :
  get data "tool" = Normal tool ->
  get data "args" = Normal args ->
  to_string tool = Normal tool_s ->
  is_string args = false ->
  json_stringify args = Some j ->
  handler (EvToolCall data) now s =
  Normal (set_logs
            (logs s ++
             [mkLogEntry (VStr (lit "TOOL"))
                (VStr (arrow_right ++ tool_s ++ two_spaces ++ slice0 120 j)) now]) s)
  /\ length (slice0 120 j) <= 120.
Proof.
  intros Htool Hargs Hts Hstr Hj. split.
  - unfold handler, on_tool_call. rewrite Htool, Hargs. cbn [bind].
    rewrite Hts, Hstr, Hj. reflexivity.
  - unfold slice0. rewrite length_firstn. lia.
Qed.

(** ** Handlers that throw *)

(** C3 fails on a tool call without [args]: [JSON.stringify(undefined)] is
    [undefined], and [undefined.slice] throws.  It fails as well when an
    event carries no payload at all: the first property read throws. *)
Theorem tool_call_without_args_throws (s : Store) (tool : jsstring) (now : Z) :
  handler (EvToolCall (VObj [(lit "tool", VStr tool)])) now s = TypeError /\
  handler (EvToolCall VUndef) now s = TypeError /\
  handler (EvToolResult VUndef) now s = TypeError /\
  handler (EvMessage VUndef) now s = TypeError /\
  handler (EvLog VUndef) now s = TypeError /\
  handler (EvStatus VUndef) now s = TypeError /\
  handler (EvError VUndef) now s = TypeError.
Proof.
  repeat split.
Qed.

(** Where the defaults do cover: the connect, disconnect, confirm and
    done handlers never throw, and the message, log and status handlers do
    not throw on any payload other than [undefined] and [null], whichever
    fields it lacks. *)
Theorem handlers_with_defaults_do_not_throw (e : Inbound) (now : Z) (s : Store) :
  reads_with_defaults e = true -> throws (handler e now s) = false.
Proof.
  destruct e as [| |data|data| | |data| | |]; simpl; intros H;
    try reflexivity; try discriminate H;
    apply negb_true_iff in H.
  - unfold on_message.
    destruct (get_present data "text" H) as [text0 ->].
    destruct (get_present data "type" H) as [type0 ->].
    destruct (get_present data "payload" H) as [payload0 ->].
    cbn [bind]. set (payload := js_or payload0 VNull).
    destruct (truthy payload) eqn:Hp; [|reflexivity].
    assert (Hn : nullish payload = false) by (now destruct payload).
    destruct (get_present payload "workflow" Hn) as [workflow ->].
    destruct (get_present payload "project" Hn) as [project ->].
    destruct (get_present payload "status" Hn) as [st ->].
    cbn [bind].
    destruct (truthy workflow), (strict_eq_str workflow (lit "chat")),
      (strict_eq_str st (lit "completed")); reflexivity.
  - unfold on_log.
    destruct (get_present data "message" H) as [message ->].
    destruct (get_present data "msg" H) as [m ->].
    destruct (get_present data "level" H) as [level ->].
    cbn [bind]. destruct (truthy message); reflexivity.
  - unfold on_status.
    destruct (get_present data "phase" H) as [phase ->].
    destruct (get_present data "step" H) as [step ->].
    destruct (get_present data "total" H) as [total ->].
    destruct (get_present data "description" H) as [description ->].
    destruct (get_present data "status" H) as [st ->].
    reflexivity.
Qed.

(** ** Clearing and sending *)

Lemma handler_keeps_socket (e : Inbound) (now : Z) (s s' : Store) :
  handler e now s = Normal s' -> _socket s' = _socket s.
Proof.
  intros H. destruct e; handler_cases; reflexivity.
Qed.

Lemma step_keeps_socket (s : Store) (o : Op) :
  _socket s <> None -> _socket (step s o) <> None.
Proof.
  intros Hs.
  destruct (_socket s) as [k|] eqn:Hk; [|now contradict Hs].
  destruct o as [|e now|text now|data confirmed|command data| |]; simpl.
  - unfold connect. now rewrite Hk, Hk.
  - rewrite Hk.
    destruct (handler e now s) as [s'|] eqn:He; [|now rewrite Hk].
    now rewrite (handler_keeps_socket _ _ _ _ He), Hk.
  - unfold sendInput. now rewrite Hk.
  - unfold sendConfirm. now rewrite Hk.
  - unfold sendCommand. now rewrite Hk.
  - now rewrite Hk.
  - now rewrite Hk.
Qed.

Lemma run_keeps_socket (ops : list Op) :
  forall s, _socket s <> None -> _socket (run s ops) <> None.
Proof.
  induction ops as [|o ops IH]; intros s Hs; simpl; [exact Hs|].
  apply IH, step_keeps_socket, Hs.
Qed.

(** The scenario of the specification: after any run that has called
    [connect()], [clearMessages()] followed by [sendInput("hello")] leaves
    exactly one message, the echo of the input, and its id is greater than
    the id of every message stored before the clear. *)
Theorem clear_then_send_issues_a_fresh_id (ops : list Op) (now : Z) :
  let s := run initial (Connect :: ops) in
  let s' := sendInput (VStr (lit "hello")) now (clearMessages s) in
  exists m,
    messages s' = [m] /\
    m_text m = VStr (lit "hello") /\
    m_type m = VStr (lit "user") /\
    Forall (fun m0 => (m_id m0 < m_id m)%Z) (messages s).
Proof.
  intros s s'.
  assert (Hsock : _socket s <> None).
  { unfold s. rewrite run_cons. apply run_keeps_socket. discriminate. }
  assert (Hok : ids_ok s) by (apply run_ids_ok, initial_ids_ok).
  subst s'. unfold sendInput. simpl _socket.
  destruct (_socket s) as [k|]; [|now contradict Hsock].
  exists (mkMessage (_msgId s + 1) (VStr (lit "user")) (VStr (lit "hello")) now VUndef).
  split; [reflexivity|]. split; [reflexivity|]. split; [reflexivity|].
  simpl. destruct Hok as [_ Hb]. unfold ids in Hb. rewrite Forall_map in Hb.
  eapply Forall_impl; [|exact Hb]. simpl. intros; lia.
Qed.

(** ** Confirmation in reachable states *)

Lemma step_keeps_pending_null (s : Store) (o : Op) :
  (_socket s = None -> pendingConfirm s = VNull) ->
  _socket (step s o) = None -> pendingConfirm (step s o) = VNull.
Proof.
  intros Inv Hnone.
  destruct (_socket s) as [k|] eqn:Hk.
  - exfalso. apply (step_keeps_socket s o); [now rewrite Hk|exact Hnone].
  - specialize (Inv eq_refl).
    destruct o as [|e now|text now|data confirmed|command data| |]; simpl in *.
    + unfold connect in Hnone. rewrite Hk in Hnone. discriminate Hnone.
    + now rewrite Hk.
    + unfold sendInput. now rewrite Hk.
    + unfold sendConfirm. now rewrite Hk.
    + unfold sendCommand. now rewrite Hk.
    + exact Inv.
    + exact Inv.
Qed.

Lemma run_keeps_pending_null (ops : list Op) :
  forall s,
    (_socket s = None -> pendingConfirm s = VNull) ->
    _socket (run s ops) = None -> pendingConfirm (run s ops) = VNull.
Proof.
  induction ops as [|o ops IH]; intros s Inv; simpl; [exact Inv|].
  apply IH. now apply step_keeps_pending_null.
Qed.

(** In every state reachable from the initial one, with or without a
    socket, [pendingConfirm] is null after [sendConfirm], whatever the
    answer: without a socket no request can have been received. *)
Theorem send_confirm_leaves_null_in_reachable_states
    (ops : list Op) (data confirmed : value) :
  pendingConfirm (sendConfirm data confirmed (run initial ops)) = VNull.
Proof.
  unfold sendConfirm.
  destruct (_socket (run initial ops)) as [k|] eqn:Hk; [reflexivity|].
  apply run_keeps_pending_null; [reflexivity|exact Hk].
Qed.

End Properties.

(** * Further properties of the store *)

Section StoreProperties.
Context {num : NumberOps}.

Lemma run_append (s : Store) (ops1 ops2 : list Op) :
  run s (ops1 ++ ops2) = run (run s ops1) ops2.
Proof. apply fold_left_app. Qed.

(** ** [connect()] called again *)

Lemma connect_with_socket (s : Store) :
  _socket s <> None -> connect s = s.
Proof.
  unfold connect. destruct (_socket s); [reflexivity|]. intros H. now contradict H.
Qed.

(** A later call of [connect()] returns the existing socket and changes
    nothing: a run with a second call anywhere after the first ends in the
    same state, packets emitted so far included, as the run without it. *)
Theorem connect_again_changes_nothing (ops1 ops2 : list Op) :
  run initial (Connect :: ops1 ++ Connect :: ops2)
  = run initial (Connect :: ops1 ++ ops2).
Proof.
  rewrite !run_cons, !run_append, run_cons.
  f_equal. apply connect_with_socket.
  apply run_keeps_socket. discriminate.
Qed.

(** ** The packets emitted *)

Lemma step_outbox (s : Store) (o : Op) :
  _socket s <> None -> outbox (step s o) = outbox s ++ packets_of o.
Proof.
  intros Hs. unfold packets_of, outbox.
  destruct (_socket s) as [k|] eqn:Hk; [clear Hs|now contradict Hs].
  destruct o as [|e now|text now|data confirmed|command data| |]; simpl.
  - unfold connect. rewrite Hk, Hk. simpl. now rewrite app_nil_r.
  - rewrite Hk.
    assert (Hfresh :
      _socket match handler e now (connect initial) with
              | Normal s' => s' | TypeError => connect initial end
      = Some (mkSocket [])).
    { destruct (handler e now (connect initial)) as [s'|] eqn:He; [|reflexivity].
      now rewrite (handler_keeps_socket _ _ _ _ He). }
    rewrite Hfresh. simpl. rewrite app_nil_r.
    destruct (handler e now s) as [s'|] eqn:He; [|now rewrite Hk].
    now rewrite (handler_keeps_socket _ _ _ _ He), Hk.
  - unfold sendInput. rewrite Hk. reflexivity.
  - unfold sendConfirm. rewrite Hk. reflexivity.
  - unfold sendCommand. rewrite Hk. reflexivity.
  - rewrite Hk. simpl. now rewrite app_nil_r.
  - rewrite Hk. simpl. now rewrite app_nil_r.
Qed.

Lemma run_outbox (ops : list Op) :
  forall s, _socket s <> None ->
            outbox (run s ops) = outbox s ++ flat_map packets_of ops.
Proof.
  induction ops as [|o ops IH]; intros s Hs; simpl.
  - now rewrite app_nil_r.
  - rewrite IH by (now apply step_keeps_socket).
    rewrite step_outbox by exact Hs. now rewrite app_assoc.
Qed.

(** After [connect()], the packets emitted by any run are exactly those of
    its calls of [sendInput], [sendConfirm] and [sendCommand], one each, in
    call order.  No inbound event, no clear and no later [connect()] emits
    or removes a packet, and the packet of a call does not depend on the
    state. *)
Theorem outbox_is_the_packets_of_the_send_calls (ops : list Op) :
  outbox (run initial (Connect :: ops)) = flat_map packets_of ops /\
  (forall e now, packets_of (Receive e now) = []) /\
  packets_of Connect = [] /\
  packets_of ClearMessages = [] /\
  packets_of ClearLogs = [] /\
  (forall text now,
     packets_of (SendInput text now)
     = [mkPacket EVT_INPUT (VObj [(lit "text", text)])]) /\
  (forall data confirmed,
     packets_of (SendConfirm data confirmed)
     = [mkPacket EVT_CONFIRM_RESP
          (VObj [(lit "response",
                  VStr (if truthy confirmed then lit "yes" else lit "no"))])]) /\
  (forall command data,
     packets_of (SendCommand command data)
     = [mkPacket EVT_COMMAND
          (VObj (spread_into [(lit "command", command)] data))]).
Proof.
  split.
  - rewrite run_cons, run_outbox by discriminate. reflexivity.
  - split; [|repeat split].
    intros e now. unfold packets_of, outbox. simpl.
    destruct (handler e now (connect initial)) as [s'|] eqn:He; [|reflexivity].
    now rewrite (handler_keeps_socket _ _ _ _ He).
Qed.

(** ** The payload of a command *)

Lemma own_prop_set_prop_same (k : jsstring) (v : value) (props : list (jsstring * value)) :
  own_prop k (set_prop k v props) = Some v.
Proof.
  induction props as [|[k' v'] props IH]; simpl.
  - now rewrite str_eqb_refl.
  - destruct (str_eqb k' k) eqn:E; simpl.
    + now rewrite str_eqb_refl.
    + now rewrite E.
Qed.

Lemma own_prop_set_prop_other (k k' : jsstring) (v : value)
    (props : list (jsstring * value)) :
  str_eqb k k' = false ->
  own_prop k' (set_prop k v props) = own_prop k' props.
Proof.
  intros Hk. induction props as [|[k0 v0] props IH]; simpl.
  - now rewrite Hk.
  - destruct (str_eqb k0 k) eqn:E; simpl.
    + rewrite Hk. apply str_eqb_eq in E. subst k0. now rewrite Hk.
    + destruct (str_eqb k0 k'); [reflexivity|exact IH].
Qed.

Lemma own_prop_absent (k : jsstring) (props : list (jsstring * value)) :
  ~ In k (map fst props) -> own_prop k props = None.
Proof.
  induction props as [|[k' v'] props IH]; simpl; intros H; [reflexivity|].
  destruct (str_eqb k' k) eqn:E.
  - apply str_eqb_eq in E. subst. contradict H. now left.
  - apply IH. intros Hin. apply H. now right.
Qed.

(** Copying properties one by one: a key of [extra] ends with the value
    [extra] gives it, any other key keeps the value of [base]. *)
Lemma own_prop_spread (k : jsstring) (extra : list (jsstring * value)) :
  forall base,
    NoDup (map fst extra) ->
    own_prop k (fold_left (fun acc kv => set_prop (fst kv) (snd kv) acc) extra base)
    = match own_prop k extra with
      | Some v => Some v
      | None => own_prop k base
      end.
Proof.
  induction extra as [|[k' v'] extra IH]; intros base Hnd; simpl; [reflexivity|].
  inversion Hnd as [|? ? Hnotin Hnd']; subst.
  rewrite IH by exact Hnd'.
  destruct (str_eqb k' k) eqn:E.
  - apply str_eqb_eq in E. subst k'.
    rewrite (own_prop_absent _ _ Hnotin). apply own_prop_set_prop_same.
  - destruct (own_prop k extra); [reflexivity|].
    now apply own_prop_set_prop_other.
Qed.

(** Lookup by name does not depend on the order of enumeration. *)
Lemma own_prop_app (k : jsstring) (a b : list (jsstring * value)) :
  own_prop k (a ++ b)
  = match own_prop k a with
    | Some v => Some v
    | None => own_prop k b
    end.
Proof.
  induction a as [|[k' v'] a IH]; simpl; [reflexivity|].
  destruct (str_eqb k' k); [reflexivity|exact IH].
Qed.

Lemma own_prop_filter (p : jsstring -> bool) (k : jsstring)
    (props : list (jsstring * value)) :
  own_prop k (filter (fun kv => p (fst kv)) props)
  = if p k then own_prop k props else None.
Proof.
  induction props as [|[k' v'] props IH]; simpl; [now destruct (p k)|].
  destruct (str_eqb k' k) eqn:E.
  - apply str_eqb_eq in E. subst k'.
    destruct (p k); simpl; [now rewrite str_eqb_refl|exact IH].
  - destruct (p k'); simpl; [now rewrite E|exact IH].
Qed.

Lemma keys_insert_index (kv : jsstring * value) (props : list (jsstring * value))
    (k : jsstring) :
  In k (map fst (insert_index kv props)) <-> k = fst kv \/ In k (map fst props).
Proof.
  induction props as [|kv' props IH]; simpl; [intuition|].
  destruct (index_value (fst kv) <=? index_value (fst kv'))%N; simpl.
  - intuition.
  - rewrite IH. intuition.
Qed.

Lemma keys_sort_indices (props : list (jsstring * value)) (k : jsstring) :
  In k (map fst (sort_indices props)) <-> In k (map fst props).
Proof.
  induction props as [|kv props IH]; simpl; [reflexivity|].
  rewrite keys_insert_index, IH. intuition.
Qed.

Lemma own_prop_insert_index (k : jsstring) (kv : jsstring * value)
    (props : list (jsstring * value)) :
  ~ In (fst kv) (map fst props) ->
  own_prop k (insert_index kv props) = own_prop k (kv :: props).
Proof.
  destruct kv as [kx vx]. simpl fst.
  induction props as [|[ky vy] props IH]; intros Hnot; [reflexivity|].
  simpl insert_index.
  destruct (index_value kx <=? index_value ky)%N; [reflexivity|].
  simpl in Hnot. simpl.
  destruct (str_eqb ky k) eqn:Ey.
  - destruct (str_eqb kx k) eqn:Ex; [|reflexivity].
    apply str_eqb_eq in Ex, Ey. subst. contradict Hnot. now left.
  - rewrite IH by tauto. reflexivity.
Qed.

Lemma own_prop_sort_indices (k : jsstring) (props : list (jsstring * value)) :
  NoDup (map fst props) ->
  own_prop k (sort_indices props) = own_prop k props.
Proof.
  induction props as [|[kx vx] props IH]; intros Hnd; [reflexivity|].
  inversion Hnd as [|? ? Hnot Hnd']; subst.
  simpl sort_indices. rewrite own_prop_insert_index.
  - simpl. now rewrite IH.
  - simpl. now rewrite keys_sort_indices.
Qed.

Lemma keys_filter (p : jsstring -> bool) (props : list (jsstring * value)) :
  NoDup (map fst props) ->
  NoDup (map fst (filter (fun kv => p (fst kv)) props)).
Proof.
  induction props as [|[k v] props IH]; intros Hnd; simpl; [constructor|].
  inversion Hnd as [|? ? Hnot Hnd']; subst.
  destruct (p k); simpl; [|now apply IH].
  constructor; [|now apply IH].
  intros Hin. apply Hnot.
  apply in_map_iff in Hin as [[k' v'] [Hk Hin]]. simpl in Hk. subst k'.
  apply filter_In in Hin as [Hin _].
  apply in_map_iff. now exists (k, v').
Qed.

Lemma keys_set_prop (k : jsstring) (v : value) (props : list (jsstring * value))
    (k' : jsstring) :
  In k' (map fst (set_prop k v props)) <-> k' = k \/ In k' (map fst props).
Proof.
  induction props as [|[k0 v0] props IH]; simpl; [intuition|].
  destruct (str_eqb k0 k) eqn:E; simpl.
  - apply str_eqb_eq in E. subst. intuition.
  - rewrite IH. intuition.
Qed.

Lemma set_prop_keeps_nodup (k : jsstring) (v : value)
    (props : list (jsstring * value)) :
  NoDup (map fst props) -> NoDup (map fst (set_prop k v props)).
Proof.
  induction props as [|[k0 v0] props IH]; intros Hnd; simpl.
  - constructor; [intros []|constructor].
  - inversion Hnd as [|? ? Hnot Hnd']; subst.
    destruct (str_eqb k0 k) eqn:E; simpl.
    + apply str_eqb_eq in E. subst. now constructor.
    + constructor; [|now apply IH].
      rewrite keys_set_prop. intros [->|Hin]; [|now apply Hnot].
      now rewrite str_eqb_refl in E.
Qed.

Lemma spread_keeps_nodup (extra : list (jsstring * value)) :
  forall base,
    NoDup (map fst base) ->
    NoDup (map fst (fold_left (fun acc kv => set_prop (fst kv) (snd kv) acc)
                      extra base)).
Proof.
  induction extra as [|kv extra IH]; intros base Hnd; simpl; [exact Hnd|].
  apply IH. now apply set_prop_keeps_nodup.
Qed.

Lemma own_prop_enumeration_order (k : jsstring) (created : list (jsstring * value)) :
  NoDup (map fst created) ->
  own_prop k (enumeration_order created) = own_prop k created.
Proof.
  intros Hnd. unfold enumeration_order.
  rewrite own_prop_app, own_prop_sort_indices
    by (apply (keys_filter is_array_index); exact Hnd).
  rewrite (own_prop_filter is_array_index).
  rewrite (own_prop_filter (fun key => negb (is_array_index key))).
  destruct (is_array_index k); simpl; [|reflexivity].
  now destruct (own_prop k created).
Qed.

(** [sendCommand(command, data)] with the socket created emits one
    [agent:command] packet whose payload holds every own property of the
    object [data] with the value [data] gives it, a [command] property of
    [data] included: it replaces the [command] argument.  The argument is
    sent only when [data] has no property of that name, and no other
    property is added. *)
Theorem command_payload_is_data_over_command
    (s : Store) (sock : Socket) (command : value)
    (props : list (jsstring * value)) (k : jsstring) :
  _socket s = Some sock ->
  NoDup (map fst props) ->
  exists payload,
    outbox (sendCommand command (VObj props) s)
    = emitted sock ++ [mkPacket EVT_COMMAND (VObj payload)] /\
    own_prop k payload
    = match own_prop k props with
      | Some v => Some v
      | None => if str_eqb (lit "command") k then Some command else None
      end.
Proof.
  intros Hs Hnd.
  exists (spread_into [(lit "command", command)] (VObj props)). split.
  - unfold sendCommand, outbox. rewrite Hs. reflexivity.
  - unfold spread_into. simpl spread_props.
    rewrite own_prop_enumeration_order.
    + rewrite own_prop_spread by exact Hnd. reflexivity.
    + apply spread_keeps_nodup. repeat constructor. intros [].
Qed.

(** ** The connection flag *)

Lemma step_connected (s : Store) (o : Op) :
  _socket s <> None ->
  connected (step s o)
  = match o with
    | Receive EvConnect _ => true
    | Receive EvDisconnect _ => false
    | _ => connected s
    end.
Proof.
  intros Hs. destruct (_socket s) as [k|] eqn:Hk; [clear Hs|now contradict Hs].
  destruct o as [|e now|text now|data confirmed|command data| |]; simpl.
  - unfold connect. now rewrite Hk.
  - rewrite Hk.
    destruct (handler e now s) as [s'|] eqn:He.
    + destruct e; handler_cases; reflexivity.
    + destruct e; try reflexivity; discriminate He.
  - unfold sendInput. now rewrite Hk.
  - unfold sendConfirm. now rewrite Hk.
  - unfold sendCommand. now rewrite Hk.
  - reflexivity.
  - reflexivity.
Qed.

Lemma run_connected (ops : list Op) :
  forall s, _socket s <> None ->
            connected (run s ops) = last_connection (connected s) ops.
Proof.
  induction ops as [|o ops IH]; intros s Hs; simpl; [reflexivity|].
  rewrite IH by (now apply step_keeps_socket).
  rewrite step_connected by exact Hs.
  destruct o as [|[] ?| | | | |]; reflexivity.
Qed.

(** After [connect()], [connected] is decided by the last connect or
    disconnect event delivered: true after a connect event, false after a
    disconnect event or when neither has been delivered.  No other event
    and no exported function changes it. *)
Theorem connected_follows_the_last_connection_event (ops : list Op) :
  connected (run initial (Connect :: ops)) = last_connection false ops.
Proof.
  rewrite run_cons. rewrite run_connected by discriminate. reflexivity.
Qed.

(** [connected] is true only on a created socket. *)
Lemma step_connected_has_socket (s : Store) (o : Op) :
  (connected s = true -> _socket s <> None) ->
  connected (step s o) = true -> _socket (step s o) <> None.
Proof.
  intros Inv Hc.
  destruct (_socket s) as [k|] eqn:Hk.
  - apply step_keeps_socket. now rewrite Hk.
  - exfalso.
    assert (Hfalse : connected s = false).
    { destruct (connected s); [|reflexivity]. now destruct (Inv eq_refl). }
    destruct o as [|e now|text now|data confirmed|command data| |];
      simpl in Hc.
    + unfold connect in Hc. rewrite Hk in Hc. simpl in Hc. congruence.
    + rewrite Hk in Hc. congruence.
    + unfold sendInput in Hc. rewrite Hk in Hc. congruence.
    + unfold sendConfirm in Hc. rewrite Hk in Hc. congruence.
    + unfold sendCommand in Hc. rewrite Hk in Hc. congruence.
    + congruence.
    + congruence.
Qed.

Lemma run_connected_has_socket (ops : list Op) :
  forall s,
    (connected s = true -> _socket s <> None) ->
    connected (run s ops) = true -> _socket (run s ops) <> None.
Proof.
  induction ops as [|o ops IH]; intros s Inv; simpl; [exact Inv|].
  apply IH. now apply step_connected_has_socket.
Qed.

(** ** Which cells an operation writes *)

Lemma same_cell_refl (c : Cell) (s : Store) : same_cell c s s.
Proof. destruct c; reflexivity. Qed.

(** An operation leaves alone every cell that its code does not assign.
    So a disconnect keeps the logs, the status snapshot, the pending
    confirmation, the completion record and the project; the log and tool
    events never touch the messages; and [clearMessages] keeps the id
    counter and the logs. *)
Theorem operations_write_only_their_cells (s : Store) (o : Op) (c : Cell) :
  may_write o c = false -> same_cell c s (step s o).
Proof.
  intros Hw.
  destruct o as [|e now|text now|data confirmed|command data| |]; simpl.
  - unfold connect.
    destruct (_socket s); destruct c; try discriminate Hw; reflexivity.
  - destruct (_socket s); [|apply same_cell_refl].
    destruct (handler e now s) as [s'|] eqn:He; [|apply same_cell_refl].
    destruct e; destruct c; try discriminate Hw; handler_cases; reflexivity.
  - unfold sendInput.
    destruct (_socket s); destruct c; try discriminate Hw; reflexivity.
  - unfold sendConfirm.
    destruct (_socket s); destruct c; try discriminate Hw; reflexivity.
  - unfold sendCommand.
    destruct (_socket s); destruct c; try discriminate Hw; reflexivity.
  - destruct c; try discriminate Hw; reflexivity.
  - destruct c; try discriminate Hw; reflexivity.
Qed.

(** ** Tool results, errors and messages *)

(** A tool-result event whose [tool] and [result] convert to strings appends
    exactly one TOOL-level entry: the left arrow, the tool name, two spaces
    and the first 120 code units of [String(result)].  Unlike a tool call,
    a string result is cut as well. *)
Theorem tool_result_text_is_cut_to_120
    (s : Store) (now : Z) (data tool result : value) (tool_s result_s : jsstring) :
  get data "tool" = Normal tool ->
  get data "result" = Normal result ->
  to_string tool = Normal tool_s ->
  to_string result = Normal result_s ->
  exists shown,
    handler (EvToolResult data) now s =
    Normal (set_logs
              (logs s ++
               [mkLogEntry (VStr (lit "TOOL"))
                  (VStr (arrow_left ++ tool_s ++ two_spaces ++ shown)) now]) s) /\
    shown = firstn 120 result_s /\
    length shown <= 120.
Proof.
  intros Ht Hr Hts Hrs. exists (firstn 120 result_s). split; [|split].
  - unfold handler, on_tool_result. rewrite Ht, Hr. cbn [bind].
    rewrite Hts, Hrs. reflexivity.
  - reflexivity.
  - rewrite length_firstn. lia.
Qed.

(** An error event on a payload other than [undefined] and [null] reports
    [data.error] when it is truthy, else [data.msg] when that is truthy,
    else the fallback text.  When the chosen value converts to a string the
    handler appends one message of type error whose text is the prefix
    followed by it, under the next id; when it does not convert, the
    handler throws. *)
Theorem error_event_reports_error_then_msg_then_fallback
    (s : Store) (now : Z) (data : value) :
  nullish data = false ->
  let chosen :=
    if truthy (field data "error") then field data "error"
    else if truthy (field data "msg") then field data "msg"
    else VStr text_unknown_error in
  handler (EvError data) now s
  = match to_string chosen with
    | Normal shown =>
        Normal (addMessage (VStr (lit "error"))
                  (VStr (text_error_prefix ++ shown)) VUndef now s)
    | TypeError => TypeError
    end.
Proof.
  intros Hn. unfold field, handler, on_error.
  destruct (get_present data "error" Hn) as [e ->].
  destruct (get_present data "msg" Hn) as [m ->].
  cbn [bind]. destruct (truthy e); cbn [bind].
  - destruct (to_string e); reflexivity.
  - unfold js_or. destruct (truthy m); cbn [bind].
    + destruct (to_string m); reflexivity.
    + reflexivity.
Qed.

(** A message event on a payload other than [undefined] and [null] never
    throws and appends exactly one message under the next id: its type is
    [data.type] or "assistant", its text [data.text] or the empty string,
    its payload [data.payload] or null.  Without a truthy payload nothing
    else changes. *)
Theorem message_event_appends_one_message_with_defaults
    (s : Store) (now : Z) (data : value) :
  nullish data = false ->
  let type := js_or (field data "type") (VStr (lit "assistant")) in
  let text := js_or (field data "text") (VStr []) in
  let payload := js_or (field data "payload") VNull in
  exists s',
    handler (EvMessage data) now s = Normal s' /\
    messages s' = messages s ++ [mkMessage (_msgId s + 1) type text now payload] /\
    _msgId s' = (_msgId s + 1)%Z /\
    (truthy payload = false ->
     s' = addMessage type text payload now s).
Proof.
  intros Hn type text payload. subst type text payload.
  unfold field, handler, on_message.
  destruct (get_present data "text" Hn) as [text0 ->].
  destruct (get_present data "type" Hn) as [type0 ->].
  destruct (get_present data "payload" Hn) as [payload0 ->].
  cbn [bind].
  set (payload := js_or payload0 VNull).
  destruct (truthy payload) eqn:Hp.
  - assert (Hpn : nullish payload = false) by (now destruct payload).
    destruct (get_present payload "workflow" Hpn) as [workflow ->].
    destruct (get_present payload "project" Hpn) as [project ->].
    destruct (get_present payload "status" Hpn) as [st ->].
    cbn [bind].
    destruct (truthy workflow), (strict_eq_str workflow (lit "chat")),
      (strict_eq_str st (lit "completed")); cbn [negb bind];
      eexists; (split; [reflexivity|]); (split; [reflexivity|]);
      (split; [reflexivity|]); discriminate.
  - cbn [bind]. eexists. split; [reflexivity|]. split; [reflexivity|].
    split; reflexivity.
Qed.

(** A message whose payload has [status] "completed" and a [workflow] other
    than "chat", an absent workflow included, sets [pipelineDone] to the
    record [{status: "completed"}], dropping every other field of the
    payload; with the workflow "chat", or with any other status,
    [pipelineDone] stays as it was. *)
Theorem message_completion_sets_pipeline_done
    (s : Store) (now : Z) (data payload : value) :
  get data "payload" = Normal payload ->
  truthy payload = true ->
  exists s',
    handler (EvMessage data) now s = Normal s' /\
    pipelineDone s'
    = if strict_eq_str (field payload "status") (lit "completed")
         && negb (strict_eq_str (field payload "workflow") (lit "chat"))
      then VObj [(lit "status", VStr (lit "completed"))]
      else pipelineDone s.
Proof.
  intros Hpayload Hp.
  assert (Hn : nullish data = false).
  { destruct data; try reflexivity; discriminate Hpayload. }
  assert (Hpn : nullish payload = false) by (now destruct payload).
  unfold field, handler, on_message.
  destruct (get_present data "text" Hn) as [text0 ->].
  destruct (get_present data "type" Hn) as [type0 ->].
  rewrite Hpayload. cbn [bind].
  assert (Hor : js_or payload VNull = payload) by (unfold js_or; now rewrite Hp).
  rewrite Hor, Hp.
  destruct (get_present payload "workflow" Hpn) as [workflow ->].
  destruct (get_present payload "project" Hpn) as [project ->].
  destruct (get_present payload "status" Hpn) as [st ->].
  cbn [bind].
  destruct (strict_eq_str st (lit "completed")) eqn:Hst.
  - assert (st = VStr (lit "completed")) as ->.
    { destruct st; try discriminate Hst. simpl in Hst.
      apply str_eqb_eq in Hst. now subst. }
    destruct (truthy workflow), (strict_eq_str workflow (lit "chat"));
      cbn [negb bind andb]; eexists; split; reflexivity.
  - destruct (truthy workflow), (strict_eq_str workflow (lit "chat"));
      cbn [negb bind andb]; eexists; split; reflexivity.
Qed.

End StoreProperties.

(** * Properties of the components *)

Section ComponentProperties.
Context {num : NumberOps}.

(** ** Prefixes, splitting and joining *)

Lemma starts_with_spec (p s : jsstring) :
  starts_with p s = true <-> exists rest, s = p ++ rest.
Proof.
  revert s. induction p as [|x p IH]; intros s; simpl.
  - split; [intros _; now exists s|reflexivity].
  - destruct s as [|y s]; simpl.
    + split; [discriminate|]. intros [rest H]. discriminate H.
    + rewrite andb_true_iff, N.eqb_eq, IH. split.
      * intros [-> [rest ->]]. now exists rest.
      * intros [rest H]. injection H as -> ->. split; [reflexivity|now exists rest].
Qed.

Lemma is_empty_spec (s : jsstring) : is_empty s = true <-> s = [].
Proof. destruct s; simpl; split; congruence. Qed.

Lemma split_on_not_nil (sep : N) (s : jsstring) : split_on sep s <> [].
Proof.
  destruct s as [|u rest]; simpl; [discriminate|].
  destruct (N.eqb u sep); [discriminate|].
  destruct (split_on sep rest); discriminate.
Qed.

(** Joining the parts of a split gives the string back. *)
Lemma join_split_on (sep : N) (s : jsstring) :
  join [sep] (split_on sep s) = s.
Proof.
  induction s as [|u rest IH]; simpl; [reflexivity|].
  destruct (N.eqb u sep) eqn:E.
  - apply N.eqb_eq in E. subst u.
    destruct (split_on sep rest) as [|part parts] eqn:Hs.
    + now destruct (split_on_not_nil sep rest).
    + simpl. now rewrite <- IH.
  - destruct (split_on sep rest) as [|part parts] eqn:Hs.
    + now destruct (split_on_not_nil sep rest).
    + rewrite <- IH. destruct parts; reflexivity.
Qed.

(** No part of a split holds the separator. *)
Lemma split_on_parts (sep : N) (s : jsstring) :
  Forall (fun part => count_occ N.eq_dec part sep = 0) (split_on sep s).
Proof.
  induction s as [|u rest IH]; simpl; [now repeat constructor|].
  destruct (N.eqb u sep) eqn:E.
  - constructor; [reflexivity|exact IH].
  - destruct (split_on sep rest) as [|part parts];
      [now repeat constructor; simpl; destruct (N.eq_dec u sep);
           [subst; rewrite N.eqb_refl in E; discriminate|]|].
    inversion IH; subst. constructor; [|assumption].
    simpl. destruct (N.eq_dec u sep) as [->|_]; [|assumption].
    rewrite N.eqb_refl in E. discriminate.
Qed.

Lemma join_app (sep : jsstring) (a b : list jsstring) :
  a <> [] -> b <> [] -> join sep (a ++ b) = join sep a ++ sep ++ join sep b.
Proof.
  intros Ha Hb. induction a as [|x a IH]; [now contradict Ha|].
  destruct a as [|y a].
  - simpl. destruct b; [now contradict Hb|reflexivity].
  - change (join sep ((x :: y :: a) ++ b)) with (x ++ sep ++ join sep ((y :: a) ++ b)).
    rewrite IH by discriminate.
    change (join sep (x :: y :: a)) with (x ++ sep ++ join sep (y :: a)).
    now rewrite <- !app_assoc.
Qed.

Lemma count_occ_join (sep : N) (parts : list jsstring) :
  Forall (fun part => count_occ N.eq_dec part sep = 0) parts ->
  count_occ N.eq_dec (join [sep] parts) sep = length parts - 1.
Proof.
  induction 1 as [|part parts Hp Hparts IH]; [reflexivity|].
  destruct parts as [|q parts].
  - simpl. rewrite Hp. reflexivity.
  - change (join [sep] (part :: q :: parts))
      with (part ++ [sep] ++ join [sep] (q :: parts)).
    rewrite !count_occ_app, Hp, IH. simpl.
    destruct (N.eq_dec sep sep); [lia|congruence].
Qed.

(** ** The path badge of [App.svelte] *)

(** For a string [activeProject] the badge is the last two segments of the
    path.  A path with at most one slash is shown whole.  A longer path is
    some leading text, a slash and the badge, and the badge is two
    segments without a slash joined by one slash: for "a/b/c" the badge is
    "b/c". *)
Theorem path_badge_is_the_last_two_segments (path : jsstring) :
  exists badge,
    App.path_badge (VStr path) = Normal badge /\
    if count_occ N.eq_dec path 47%N <=? 1 then badge = path
    else
      exists dirs before after,
        path = dirs ++ [47%N] ++ badge /\
        badge = before ++ [47%N] ++ after /\
        count_occ N.eq_dec before 47%N = 0 /\
        count_occ N.eq_dec after 47%N = 0.
Proof.
  unfold App.path_badge.
  set (parts := split_on 47 path).
  assert (Hjoin : join [47%N] parts = path) by apply join_split_on.
  assert (Hparts : Forall (fun part => count_occ N.eq_dec part 47%N = 0) parts)
    by apply split_on_parts.
  assert (Hlen : count_occ N.eq_dec path 47%N = length parts - 1).
  { rewrite <- Hjoin. now apply count_occ_join. }
  assert (Hne : parts <> []) by apply split_on_not_nil.
  unfold slice_last. set (k := length parts - 2).
  change (lit "/") with [47%N].
  eexists. split; [reflexivity|].
  destruct (Nat.leb_spec (count_occ N.eq_dec path 47%N) 1) as [Hfew|Hmany].
  - replace k with 0 by (unfold k; lia). exact Hjoin.
  - assert (Hcut : parts = firstn k parts ++ skipn k parts)
      by (symmetry; apply firstn_skipn).
    assert (Hf : firstn k parts <> []).
    { intros Hnil. apply (f_equal (@length _)) in Hnil.
      rewrite length_firstn in Hnil. simpl in Hnil. unfold k in *. lia. }
    assert (Hlast : length (skipn k parts) = 2)
      by (rewrite length_skipn; unfold k; lia).
    destruct (skipn k parts) as [|before [|after [|more rest]]] eqn:Hsk;
      try discriminate Hlast.
    exists (join [47%N] (firstn k parts)), before, after.
    rewrite Hcut in Hparts. apply Forall_app in Hparts as [_ Hp].
    apply Forall_cons_iff in Hp as [Hb Hp']. apply Forall_cons_iff in Hp' as [Ha _].
    split; [|split; [reflexivity|split; assumption]].
    rewrite <- Hjoin at 1. rewrite Hcut at 1.
    rewrite join_app by (assumption || discriminate). reflexivity.
Qed.

(** ** [resetSession] of [App.svelte] *)

(** After [connect()], [resetSession()] emits one [agent:input] packet with
    the text "reset", leaves the message list empty (the echo of "reset" is
    cleared at once, though it has taken the next id), clears the
    completion record and opens the onboarding modal. *)
Theorem reset_session_sends_reset_and_empties_the_chat (ops : list Op) (now : Z) :
  let s := run initial (Connect :: ops) in
  let after := App.resetSession now s in
  messages (fst after) = [] /\
  pipelineDone (fst after) = VNull /\
  _msgId (fst after) = (_msgId s + 1)%Z /\
  outbox (fst after)
  = outbox s ++ [mkPacket EVT_INPUT (VObj [(lit "text", VStr (lit "reset"))])] /\
  snd after = true.
Proof.
  intros s after.
  assert (Hs : _socket s <> None).
  { unfold s. rewrite run_cons. apply run_keeps_socket. discriminate. }
  subst after. unfold App.resetSession, sendInput, outbox. simpl.
  destruct (_socket s) as [k|]; [|now contradict Hs].
  repeat split.
Qed.

(** ** The completion badge of [StatusBar.svelte] *)

Lemma strict_eq_str_both (v : value) (a b : jsstring) :
  strict_eq_str v a = true -> strict_eq_str v b = true -> a = b.
Proof.
  destruct v; simpl; try discriminate.
  intros Ha Hb. apply str_eqb_eq in Ha, Hb. congruence.
Qed.

(** Whatever the completion record holds, the badge gets exactly one of the
    classes ok, warn and err; a record without a string status, or with an
    unknown one, gets err. *)
Theorem done_badge_has_exactly_one_class (pipelineDone : value) :
  (StatusBar.class_ok pipelineDone, StatusBar.class_warn pipelineDone,
   StatusBar.class_err pipelineDone) = (true, false, false) \/
  (StatusBar.class_ok pipelineDone, StatusBar.class_warn pipelineDone,
   StatusBar.class_err pipelineDone) = (false, true, false) \/
  (StatusBar.class_ok pipelineDone, StatusBar.class_warn pipelineDone,
   StatusBar.class_err pipelineDone) = (false, false, true).
Proof.
  unfold StatusBar.class_ok, StatusBar.class_warn, StatusBar.class_err.
  set (st := StatusBar.done_status pipelineDone). simpl existsb.
  destruct (strict_eq_str st (lit "completed")) eqn:H1;
  destruct (strict_eq_str st (lit "success")) eqn:H2;
  destruct (strict_eq_str st (lit "partial")) eqn:H3;
  destruct (strict_eq_str st (lit "partial_success")) eqn:H4;
  simpl; auto;
  exfalso;
  repeat match goal with
         | Ha : strict_eq_str st ?a = true, Hb : strict_eq_str st ?b = true |- _ =>
             discriminate (strict_eq_str_both st a b Ha Hb)
         end.
Qed.

(** ** [Input.svelte] *)

Lemma command_names (c : Input.Command) :
  In c Input.COMMANDS ->
  Input.cmd c = lit "project" \/ Input.cmd c = lit "resume" \/
  Input.cmd c = lit "analyze" \/ Input.cmd c = lit "reset".
Proof.
  intros [<-|[<-|[<-|[<-|[]]]]]; simpl; auto.
Qed.

(** The suggestions after an input event are exactly the commands that the
    trimmed, lower-cased text begins without completing: the commands of
    which it is a proper, non-empty prefix.  A text that begins with a
    slash has none, and so has an empty or blank one. *)
Theorem suggestions_are_the_commands_the_text_begins
    (toLowerCase : jsstring -> jsstring) (st : Input.State) (c : Input.Command) :
  let val := toLowerCase (trim (Input.text st)) in
  In c (Input.suggestions (Input.onInput toLowerCase st)) <->
  In c Input.COMMANDS /\ val <> [] /\
  exists rest, rest <> [] /\ Input.cmd c = val ++ rest.
Proof.
  intros val. unfold Input.onInput. fold val.
  destruct (starts_with (lit "/") val) eqn:Hslash.
  - simpl. split; [intros []|].
    intros (Hin & _ & rest & _ & Hcmd).
    apply starts_with_spec in Hslash as [v ->].
    destruct (command_names c Hin) as [H|[H|[H|H]]];
      rewrite H in Hcmd; discriminate Hcmd.
  - destruct (length val <? 1) eqn:Hlen; cbn [orb Input.suggestions].
    + split; [intros []|]. intros (_ & Hne & _).
      apply Nat.ltb_lt in Hlen. destruct val; [now contradict Hne|simpl in Hlen; lia].
    + apply Nat.ltb_ge in Hlen.
      rewrite filter_In, andb_true_iff, negb_true_iff, starts_with_spec.
      split.
      * intros (Hin & [rest Hcmd] & Hneq). split; [exact Hin|]. split.
        -- intros ->. simpl in Hlen. lia.
        -- exists rest. split; [|exact Hcmd]. intros ->.
           rewrite app_nil_r in Hcmd. rewrite Hcmd, str_eqb_refl in Hneq.
           discriminate.
      * intros (Hin & _ & rest & Hrest & Hcmd). split; [exact Hin|]. split.
        -- now exists rest.
        -- destruct (str_eqb (Input.cmd c) val) eqn:E; [|reflexivity].
           apply str_eqb_eq in E. rewrite E in Hcmd.
           rewrite <- (app_nil_r val) in Hcmd at 1.
           apply app_inv_head in Hcmd. now subst.
Qed.

(** Once the trimmed, lower-cased text begins with the whole name of a
    command, whatever follows it, nothing is suggested: no command name
    begins another, and the command itself is left out.  This is the text
    after a suggestion has been applied (the name and a space) and while an
    argument is typed behind it. *)
Theorem text_with_a_full_command_offers_nothing
    (toLowerCase : jsstring -> jsstring) (st : Input.State) (c : Input.Command)
    (more : jsstring) :
  In c Input.COMMANDS ->
  toLowerCase (trim (Input.text st)) = Input.cmd c ++ more ->
  Input.suggestions (Input.onInput toLowerCase st) = [].
Proof.
  intros Hin Hval. unfold Input.onInput. rewrite Hval.
  destruct (starts_with (lit "/") (Input.cmd c ++ more)
            || (length (Input.cmd c ++ more) <? 1)); [reflexivity|].
  cbn [Input.suggestions].
  destruct (command_names c Hin) as [H|[H|[H|H]]]; rewrite H;
    destruct more; reflexivity.
Qed.

(** [submit()] sends nothing while [connected] is false or the text is
    blank: the component and the store stay as they are.  Otherwise, in
    every state the store can reach, it empties the text and the
    suggestions, appends the trimmed text as one user message and emits it
    in one [agent:input] packet. *)
Theorem input_submit_sends_only_when_connected
    (ops : list Op) (now : Z) (st : Input.State) :
  let s := run initial ops in
  let val := trim (Input.text st) in
  if is_empty val || negb (connected s)
  then Input.submit now st s = (st, s)
  else
    fst (Input.submit now st s) = Input.mkState [] [] /\
    messages (snd (Input.submit now st s))
    = messages s ++ [mkMessage (_msgId s + 1) (VStr (lit "user")) (VStr val) now VUndef] /\
    outbox (snd (Input.submit now st s))
    = outbox s ++ [mkPacket EVT_INPUT (VObj [(lit "text", VStr val)])].
Proof.
  intros s val. unfold Input.submit. fold val.
  destruct (is_empty val || negb (connected s)) eqn:Hguard; [reflexivity|].
  apply orb_false_iff in Hguard as [_ Hc]. apply negb_false_iff in Hc.
  assert (Hs : _socket s <> None).
  { apply run_connected_has_socket; [discriminate|exact Hc]. }
  simpl. unfold sendInput, outbox.
  destruct (_socket s) as [k|]; [|now contradict Hs].
  repeat split.
Qed.

(** ** [renderText] of [Chat.svelte] *)

Lemma separator_not_in_markup (h : N) (t : jsstring) :
  Chat.is_separator h = true -> In t Chat.MARKUP -> ~ In h t.
Proof.
  unfold Chat.is_separator. rewrite andb_true_iff, forallb_forall.
  intros [_ Hall] Ht Hin. specialize (Hall t Ht).
  rewrite forallb_forall in Hall. specialize (Hall h Hin).
  now rewrite N.eqb_refl in Hall.
Qed.

Lemma markup_not_nil (t : jsstring) : In t Chat.MARKUP -> t <> [].
Proof.
  intros H. repeat (destruct H as [<-|H]; [discriminate|]). destruct H.
Qed.

Lemma html_safe_app (a b : jsstring) :
  Chat.html_safe a -> Chat.html_safe b -> Chat.html_safe (a ++ b).
Proof.
  induction 1 as [|u rest Hu _ IH|t rest Ht _ IH]; intros Hb; simpl.
  - exact Hb.
  - apply Chat.safe_unit; [exact Hu|now apply IH].
  - rewrite <- app_assoc. apply Chat.safe_markup; [exact Ht|now apply IH].
Qed.

Lemma html_safe_markup (t : jsstring) : In t Chat.MARKUP -> Chat.html_safe t.
Proof.
  intros Ht. rewrite <- (app_nil_r t).
  apply Chat.safe_markup; [exact Ht|constructor].
Qed.

Lemma escapes_by_unit (s : jsstring) :
  Chat.escape_gt (Chat.escape_lt (Chat.escape_amp s)) = flat_map Chat.escape_unit s.
Proof.
  unfold Chat.escape_gt, Chat.escape_lt, Chat.escape_amp.
  induction s as [|u s IH]; [reflexivity|].
  simpl flat_map. rewrite !flat_map_app, IH. f_equal.
  unfold Chat.escape_unit.
  destruct (N.eqb_spec u 38) as [->|H38]; [reflexivity|].
  destruct (N.eqb_spec u 60) as [->|H60]; [reflexivity|].
  destruct (N.eqb_spec u 62) as [->|H62]; [reflexivity|].
  simpl. rewrite (proj2 (N.eqb_neq u 60) H60). simpl.
  rewrite (proj2 (N.eqb_neq u 62) H62). reflexivity.
Qed.

Lemma escaped_is_html_safe (s : jsstring) :
  Chat.html_safe (flat_map Chat.escape_unit s).
Proof.
  induction s as [|u s IH]; simpl; [constructor|].
  unfold Chat.escape_unit.
  destruct (N.eqb u 38) eqn:H38;
    [apply Chat.safe_markup; [simpl; tauto|exact IH]|].
  destruct (N.eqb u 60) eqn:H60;
    [apply Chat.safe_markup; [simpl; tauto|exact IH]|].
  destruct (N.eqb u 62) eqn:H62;
    [apply Chat.safe_markup; [simpl; tauto|exact IH]|].
  simpl. apply Chat.safe_unit; [|exact IH].
  unfold Chat.is_plain. now rewrite H38, H60, H62.
Qed.

(** Cutting a safe string at a separator leaves two safe strings. *)
Lemma app_eq_app_unit (t rest a b : jsstring) (h : N) :
  t ++ rest = a ++ h :: b -> ~ In h t ->
  exists a', a = t ++ a' /\ rest = a' ++ h :: b.
Proof.
  revert a. induction t as [|x t IH]; intros a Heq Hnot; simpl in *.
  - now exists a.
  - destruct a as [|y a]; simpl in Heq; injection Heq as -> Heq.
    + contradict Hnot. now left.
    + destruct (IH a Heq) as [a' [-> ->]]; [tauto|]. now exists a'.
Qed.

Lemma html_safe_cut_unit (h : N) (s : jsstring) :
  Chat.html_safe s -> Chat.is_separator h = true ->
  forall a b, s = a ++ h :: b -> Chat.html_safe a /\ Chat.html_safe b.
Proof.
  intros Hs Hh. induction Hs as [|u rest Hu Hrest IH|t rest Ht Hrest IH];
    intros a b Heq.
  - destruct a; discriminate Heq.
  - destruct a as [|y a]; simpl in Heq; injection Heq as -> ->.
    + split; [constructor|exact Hrest].
    + destruct (IH a b eq_refl) as [Ha Hb].
      split; [now apply Chat.safe_unit|exact Hb].
  - destruct (app_eq_app_unit t rest a b h Heq) as [a' [-> Hr]];
      [now apply separator_not_in_markup|].
    destruct (IH a' b Hr) as [Ha Hb].
    split; [now apply Chat.safe_markup|exact Hb].
Qed.

Lemma html_safe_after_separators (d b : jsstring) :
  forallb Chat.is_separator d = true ->
  Chat.html_safe (d ++ b) -> Chat.html_safe b.
Proof.
  induction d as [|h d IH]; simpl; intros Hd Hs; [exact Hs|].
  apply andb_true_iff in Hd as [Hh Hd].
  apply IH; [exact Hd|].
  exact (proj2 (html_safe_cut_unit h _ Hs Hh [] (d ++ b) eq_refl)).
Qed.

Lemma html_safe_cut (d : jsstring) :
  forallb Chat.is_separator d = true -> d <> [] ->
  forall a b, Chat.html_safe (a ++ d ++ b) -> Chat.html_safe a /\ Chat.html_safe b.
Proof.
  intros Hd Hne a b Hs. destruct d as [|h d]; [now contradict Hne|].
  simpl in Hd. apply andb_true_iff in Hd as [Hh Hd].
  destruct (html_safe_cut_unit h _ Hs Hh a (d ++ b) eq_refl) as [Ha Hrest].
  split; [exact Ha|]. now apply html_safe_after_separators with (d := d).
Qed.

(** What the group search returns. *)
Lemma scan_close_spec (d s more after : jsstring) :
  Chat.scan_close d s = Some (more, after) -> s = more ++ d ++ after.
Proof.
  revert more. induction s as [|u s IH]; intros more H.
  - simpl in H. destruct (starts_with d []) eqn:Hsw; [|discriminate H].
    injection H as <- <-. apply starts_with_spec in Hsw as [rest Hrest].
    rewrite Hrest at 1. simpl. f_equal.
    rewrite Hrest, skipn_app, skipn_all, Nat.sub_diag. reflexivity.
  - simpl in H. destruct (starts_with d (u :: s)) eqn:Hsw.
    + injection H as <- <-. apply starts_with_spec in Hsw as [rest Hrest].
      rewrite Hrest. simpl. f_equal.
      now rewrite skipn_app, skipn_all, Nat.sub_diag.
    + destruct (Chat.is_line_terminator u); [discriminate H|].
      destruct (Chat.scan_close d s) as [[m a]|] eqn:Hscan; [|discriminate H].
      injection H as <- <-. simpl. f_equal. now apply IH.
Qed.

Lemma find_close_spec (d body group after : jsstring) :
  Chat.find_close d body = Some (group, after) ->
  body = group ++ d ++ after /\ group <> [].
Proof.
  unfold Chat.find_close. destruct body as [|u rest]; [discriminate|].
  destruct (Chat.is_line_terminator u); [discriminate|].
  destruct (Chat.scan_close d rest) as [[m a]|] eqn:Hscan; [|discriminate].
  intros H. injection H as <- <-. split; [|discriminate].
  simpl. f_equal. now apply scan_close_spec.
Qed.

(** Passing the code units of a match. *)
Lemma replace_skips (d o c x rest : jsstring) :
  Chat.replace_delimited d o c (length x) (x ++ rest)
  = Chat.replace_delimited d o c 0 rest.
Proof.
  induction x as [|u x IH]; [reflexivity|]. simpl. exact IH.
Qed.

(** Code units other than the first of the delimiter are copied. *)
Lemma replace_copies (h : N) (d o c t rest : jsstring) :
  ~ In h t ->
  Chat.replace_delimited (h :: d) o c 0 (t ++ rest)
  = t ++ Chat.replace_delimited (h :: d) o c 0 rest.
Proof.
  induction t as [|x t IH]; intros Hnot; [reflexivity|].
  assert (Hx : N.eqb h x = false).
  { apply N.eqb_neq. intros ->. apply Hnot. now left. }
  rewrite <- !app_comm_cons.
  cbn [Chat.replace_delimited starts_with]. rewrite Hx. cbn [andb].
  f_equal. apply IH. intros Hin. apply Hnot. now right.
Qed.

(** One delimiter pass keeps a safe string safe. *)
Lemma replace_keeps_html_safe (h : N) (d o c : jsstring) :
  forallb Chat.is_separator (h :: d) = true ->
  In o Chat.MARKUP -> In c Chat.MARKUP ->
  forall n s, length s <= n -> Chat.html_safe s ->
              Chat.html_safe (Chat.replace_delimited (h :: d) o c 0 s).
Proof.
  intros Hd Ho Hc.
  assert (Hh : Chat.is_separator h = true).
  { simpl in Hd. now apply andb_true_iff in Hd as [Hh _]. }
  induction n as [|n IH]; intros s Hlen Hs.
  - destruct s; [constructor|simpl in Hlen; lia].
  - destruct Hs as [|u rest Hu Hrest|t rest Ht Hrest].
    + constructor.
    + simpl in Hlen.
      assert (Hcopy : Chat.html_safe
                        (u :: Chat.replace_delimited (h :: d) o c 0 rest)).
      { apply Chat.safe_unit; [exact Hu|]. apply IH; [lia|exact Hrest]. }
      cbn [Chat.replace_delimited].
      destruct (starts_with (h :: d) (u :: rest)) eqn:Hsw; [|exact Hcopy].
      destruct (Chat.find_close (h :: d) (skipn (length (h :: d)) (u :: rest)))
        as [[group after]|] eqn:Hfind; [|exact Hcopy].
      apply starts_with_spec in Hsw as [body Hbody].
      rewrite Hbody in Hfind.
      rewrite skipn_app, skipn_all, Nat.sub_diag in Hfind. simpl in Hfind.
      apply find_close_spec in Hfind as [Hgroup _].
      simpl in Hbody. injection Hbody as -> Hrest_eq.
      subst body. subst rest.
      assert (Hwhole : Chat.html_safe ([] ++ (h :: d) ++ group ++ (h :: d) ++ after)).
      { apply Chat.safe_unit; [exact Hu|exact Hrest]. }
      apply html_safe_cut in Hwhole as [_ Htail]; [|exact Hd|discriminate].
      apply html_safe_cut in Htail as [Hg Hafter]; [|exact Hd|discriminate].
      assert (Hskip : Chat.replace_delimited (h :: d) o c
                        (length (h :: d) + length group + length (h :: d) - 1)
                        (d ++ group ++ (h :: d) ++ after)
                      = Chat.replace_delimited (h :: d) o c 0 after).
      { replace (length (h :: d) + length group + length (h :: d) - 1)
          with (length (d ++ group ++ h :: d))
          by (rewrite !length_app; simpl; lia).
        replace (d ++ group ++ (h :: d) ++ after)
          with ((d ++ group ++ h :: d) ++ after)
          by (now rewrite <- !app_assoc).
        apply replace_skips. }
      rewrite Hskip.
      apply html_safe_app; [now apply html_safe_markup|].
      apply html_safe_app; [exact Hg|].
      apply html_safe_app; [now apply html_safe_markup|].
      apply IH; [|exact Hafter].
      rewrite !length_app in Hlen. simpl in Hlen. lia.
    + rewrite replace_copies by (now apply separator_not_in_markup).
      apply Chat.safe_markup; [exact Ht|].
      apply IH; [|exact Hrest].
      pose proof (markup_not_nil t Ht) as Hne.
      rewrite length_app in Hlen. destruct t; [now contradict Hne|].
      simpl in Hlen. lia.
Qed.

Lemma newline_keeps_markup (t : jsstring) :
  In t Chat.MARKUP -> Chat.newline_to_br t = t.
Proof.
  intros H. repeat (destruct H as [<-|H]; [reflexivity|]). destruct H.
Qed.

Lemma newline_keeps_html_safe (s : jsstring) :
  Chat.html_safe s -> Chat.html_safe (Chat.newline_to_br s).
Proof.
  unfold Chat.newline_to_br.
  induction 1 as [|u rest Hu _ IH|t rest Ht _ IH]; simpl.
  - constructor.
  - destruct (N.eqb u 10).
    + apply Chat.safe_markup; [simpl; tauto|exact IH].
    + simpl. now apply Chat.safe_unit.
  - rewrite flat_map_app.
    fold (Chat.newline_to_br t). rewrite newline_keeps_markup by exact Ht.
    now apply Chat.safe_markup.
Qed.

(** On a string, [renderText] returns markup that is safe to insert as
    HTML, whatever the text: the result consists of code units other than
    [<], [>] and [&], of the entities for these three, and of the tags
    strong, code and br that the function writes itself, so no tag and no
    entity of the text gets through.  On anything but a string the call of
    [replace] throws. *)
Theorem render_text_is_html_safe (text : value) :
  match text with
  | VStr s => exists out, Chat.renderText text = Normal out /\ Chat.html_safe out
  | _ => Chat.renderText text = TypeError
  end.
Proof.
  destruct text as [| | | |s| |]; try reflexivity.
  eexists. split; [reflexivity|].
  apply newline_keeps_html_safe.
  eapply replace_keeps_html_safe; [reflexivity|simpl; tauto|simpl; tauto| |].
  - apply le_n.
  - eapply replace_keeps_html_safe; [reflexivity|simpl; tauto|simpl; tauto| |].
    + apply le_n.
    + rewrite escapes_by_unit. apply escaped_is_html_safe.
Qed.

Lemma flat_map_unchanged (f : N -> jsstring) (s : jsstring) :
  Forall (fun u => f u = [u]) s -> flat_map f s = s.
Proof.
  induction 1 as [|u s Hu _ IH]; simpl; [reflexivity|]. now rewrite Hu, IH.
Qed.

(** A text without [&], [<], [>], [*], a backtick or a line feed is
    rendered as it is. *)
Theorem render_text_keeps_plain_text (s : jsstring) :
  forallb (fun u => negb (Chat.is_special u)) s = true ->
  Chat.renderText (VStr s) = Normal s.
Proof.
  intros Hplain. rewrite forallb_forall in Hplain.
  assert (Hnot : forall x, In x s -> Chat.is_special x = false).
  { intros x Hx. apply negb_true_iff. now apply Hplain. }
  unfold Chat.renderText. f_equal.
  assert (Hesc : Chat.escape_gt (Chat.escape_lt (Chat.escape_amp s)) = s).
  { rewrite escapes_by_unit. apply flat_map_unchanged.
    apply Forall_forall. intros u Hu. specialize (Hnot u Hu).
    unfold Chat.is_special in Hnot. unfold Chat.escape_unit.
    repeat (apply orb_false_iff in Hnot as [Hnot ?]).
    now rewrite Hnot, H3, H2. }
  rewrite Hesc.
  assert (Hstar : Chat.replace_delimited (lit "**") (lit "<strong>") (lit "</strong>") 0 s = s).
  { rewrite <- (app_nil_r s) at 1.
    change (lit "**") with (42%N :: [42%N]).
    rewrite replace_copies; [now rewrite app_nil_r|].
    intros Hin. specialize (Hnot _ Hin). discriminate Hnot. }
  rewrite Hstar.
  assert (Htick : Chat.replace_delimited (lit "`") (lit "<code>") (lit "</code>") 0 s = s).
  { rewrite <- (app_nil_r s) at 1.
    change (lit "`") with (96%N :: []).
    rewrite replace_copies; [now rewrite app_nil_r|].
    intros Hin. specialize (Hnot _ Hin). discriminate Hnot. }
  rewrite Htick.
  apply flat_map_unchanged. apply Forall_forall. intros u Hu.
  specialize (Hnot u Hu). unfold Chat.is_special in Hnot.
  apply orb_false_iff in Hnot as [_ Hnl]. now rewrite Hnl.
Qed.

(** ** [OnboardingModal.svelte] *)

Lemma existsb_str_eqb (m : jsstring) (l : list jsstring) :
  existsb (str_eqb m) l = true -> In m l.
Proof.
  rewrite existsb_exists. intros [x [Hin Heq]].
  apply str_eqb_eq in Heq. now subst.
Qed.

Lemma act_keeps_modal_ok (md : Onboarding.Modal) (a : Onboarding.Action) :
  Onboarding.modal_ok md -> Onboarding.modal_ok (Onboarding.act md a).
Proof.
  intros Hok. unfold Onboarding.act.
  destruct (Onboarding.offered md a) eqn:Hoff; [|exact Hok].
  destruct a as [|m| | |path|task|t|now s]; cbn [Onboarding.offered] in Hoff.
  - destruct Hok as [[Hs Hm]|[Hshow [Hs Hm]]]; [left|right]; simpl; auto.
  - apply andb_true_iff in Hoff as [Hoff Hkey].
    apply andb_true_iff in Hoff as [Hshow _].
    right. split; [exact Hshow|]. split; [reflexivity|].
    apply existsb_str_eqb. exact Hkey.
  - unfold Onboarding.back.
    apply andb_true_iff in Hoff as [_ Hcfg]. rewrite Hcfg. now left.
  - now left.
  - destruct Hok as [[Hs Hm]|[Hshow [Hs Hm]]]; [left|right]; simpl; auto.
  - destruct Hok as [[Hs Hm]|[Hshow [Hs Hm]]]; [left|right]; simpl; auto.
  - destruct Hok as [[Hs Hm]|[Hshow [Hs Hm]]]; [left|right]; simpl; auto.
  - unfold Onboarding.submit.
    destruct (is_empty (trim (Onboarding.pathInput md))); [exact Hok|].
    now left.
Qed.

Lemma actions_keep_modal_ok (actions : list Onboarding.Action) :
  forall md, Onboarding.modal_ok md ->
             Onboarding.modal_ok (fold_left Onboarding.act actions md).
Proof.
  induction actions as [|a actions IH]; intros md Hok; simpl; [exact Hok|].
  apply IH. now apply act_keeps_modal_ok.
Qed.

(** Whatever the parent and the user do, the modal is either at the mode
    step with no mode selected, or shown at the config step with one of the
    four modes selected.  A modal that is not shown is therefore always at
    the mode step: opening it again starts the wizard over. *)
Theorem modal_restarts_at_the_mode_step (actions : list Onboarding.Action) :
  let md := fold_left Onboarding.act actions Onboarding.created in
  ((Onboarding.step md = lit "mode" /\ Onboarding.selectedMode md = []) \/
   (Onboarding.show md = true /\ Onboarding.step md = lit "config" /\
    In (Onboarding.selectedMode md) Onboarding.MODE_KEYS)) /\
  (Onboarding.show md = false ->
   Onboarding.step (Onboarding.act md Onboarding.Open) = lit "mode").
Proof.
  intros md.
  assert (Hok : Onboarding.modal_ok md).
  { apply actions_keep_modal_ok. left. split; reflexivity. }
  split; [exact Hok|].
  intros Hhidden. simpl.
  destruct Hok as [[Hs _]|[Hshow _]]; [exact Hs|congruence].
Qed.

(** A submit that the button allows, with the socket created, closes the
    modal and sends the text "project" followed by the trimmed path as one
    user message and one [agent:input] packet, connected or not.  In the
    build mode the follow-up that sends the task is always scheduled; in
    the chat mode without a task nothing follows.  The selected project
    type has no part in what is sent or scheduled. *)
Theorem onboarding_submit_sends_the_project_command
    (now : Z) (md : Onboarding.Modal) (s : Store) (k : Socket) (t : jsstring) :
  _socket s = Some k ->
  Onboarding.submit_disabled md = false ->
  let command := VStr (lit "project " ++ trim (Onboarding.pathInput md)) in
  exists s' timer,
    Onboarding.submit now md s = (Onboarding.close md, s', timer) /\
    messages s'
    = messages s ++ [mkMessage (_msgId s + 1) (VStr (lit "user")) command now VUndef] /\
    outbox s' = emitted k ++ [mkPacket EVT_INPUT (VObj [(lit "text", command)])] /\
    (Onboarding.selectedMode md = lit "build" -> timer = Some Onboarding.SendTask) /\
    (Onboarding.selectedMode md = lit "chat" ->
     trim (Onboarding.taskInput md) = [] -> timer = None) /\
    snd (Onboarding.submit now
           (Onboarding.mkModal (Onboarding.show md) (Onboarding.step md)
              (Onboarding.selectedMode md) t
              (Onboarding.pathInput md) (Onboarding.taskInput md)) s)
    = timer /\
    snd (fst (Onboarding.submit now
           (Onboarding.mkModal (Onboarding.show md) (Onboarding.step md)
              (Onboarding.selectedMode md) t
              (Onboarding.pathInput md) (Onboarding.taskInput md)) s))
    = s'.
Proof.
  intros Hs Hdis command.
  unfold Onboarding.submit_disabled in Hdis.
  apply orb_false_iff in Hdis as [Hpath Hbuild].
  unfold Onboarding.submit. simpl. rewrite Hpath.
  eexists. eexists. split; [reflexivity|].
  unfold sendInput, outbox. rewrite Hs. simpl.
  split; [reflexivity|]. split; [reflexivity|]. split; [|split].
  - intros Hmode. rewrite Hmode in Hbuild. simpl in Hbuild.
    now rewrite Hbuild.
  - intros Hmode Htask. now rewrite Htask, Hmode.
  - split; reflexivity.
Qed.

(** The follow-up callback reads [taskInput] when it runs, not when it is
    scheduled: when a mode has been selected again in the meantime, which
    empties the field, it sends the empty string as a user message and as
    an [agent:input] packet, whatever task was typed before. *)
Theorem follow_up_reads_the_task_when_it_runs
    (now : Z) (md : Onboarding.Modal) (s : Store) (k : Socket) (m : jsstring) :
  _socket s = Some k ->
  outbox (Onboarding.fire Onboarding.SendTask now md s)
  = emitted k ++
    [mkPacket EVT_INPUT (VObj [(lit "text", VStr (trim (Onboarding.taskInput md)))])] /\
  outbox (Onboarding.fire Onboarding.SendTask now (Onboarding.selectMode m md) s)
  = emitted k ++ [mkPacket EVT_INPUT (VObj [(lit "text", VStr [])])] /\
  messages (Onboarding.fire Onboarding.SendTask now (Onboarding.selectMode m md) s)
  = messages s ++ [mkMessage (_msgId s + 1) (VStr (lit "user")) (VStr []) now VUndef].
Proof.
  intros Hs. unfold Onboarding.fire, sendInput, outbox. rewrite Hs. simpl.
  repeat split.
Qed.

End ComponentProperties.

(** * Concrete runs

    The statements below run the model on explicit payloads, with integers
    for numbers. *)

(** C1 fails on the code: from the initial state, [connect()], then 500
    [agent:log] events fill the log to its cap of 500; one more event of a
    tool call, or of a tool result, leaves 501 entries.  Only the
    [EVT.LOG] handler trims the log. *)
Theorem tool_event_after_500_logs_exceeds_cap :
  let log_event := (VObj [(lit "message", VStr (lit "x"))], 0%Z) in
  let full := run initial (Connect :: log_events (repeat log_event 500)) in
  let call := Receive (EvToolCall (tool_call_of (lit "read_file") (lit "a.py"))) 0 in
  let result :=
    Receive (EvToolResult (VObj [(lit "tool", VStr (lit "read_file"));
                                 (lit "result", VStr (lit "ok"))])) 0 in
  length (logs full) = 500 /\
  length (logs (step full call)) = 501 /\
  length (logs (step full result)) = 501 /\
  length (logs (run initial (Connect :: repeat call 501))) = 501.
Proof.
  cbv zeta.
  split; [vm_compute; reflexivity|].
  split; [vm_compute; reflexivity|].
  split; [vm_compute; reflexivity|].
  rewrite run_cons.
  rewrite run_tool_calls with (k := mkSocket []); reflexivity.
Qed.

(** C6 fails on the code for string arguments: a tool call whose [args] is
    a string of 121 characters appends one TOOL-level entry whose text is
    the arrow, the tool name, two spaces and all 121 characters of [args];
    nothing is cut to 120. *)
Theorem tool_call_string_args_are_not_truncated :
  let args := repeat 97%N 121 in
  let s := connect initial in
  exists entry,
    handler (EvToolCall (tool_call_of (lit "read_file") args)) 0 s
      = Normal (set_logs [entry] s) /\
    l_level entry = VStr (lit "TOOL") /\
    l_msg entry = VStr (arrow_right ++ lit "read_file" ++ two_spaces ++ args) /\
    length args = 121.
Proof.
  cbv zeta. eexists. split.
  - rewrite tool_call_string_args_verbatim. reflexivity.
  - repeat split.
Qed.

(** C2 fails as stated: after [connect()], a connect and a disconnect the
    connection is not established, yet [sendInput] appends a message and
    emits [agent:input], [sendConfirm] emits [agent:confirm_response] and
    [sendCommand] emits [agent:command]. *)
Lemma send_while_disconnected_is_not_a_noop :
  let s := run initial [Connect; Receive EvConnect 1; Receive EvDisconnect 2] in
  connected s = false /\
  option_map emitted (_socket s) = Some [] /\
  length (messages (sendInput (VStr (lit "hi")) 3 s)) = S (length (messages s)) /\
  option_map emitted (_socket (sendInput (VStr (lit "hi")) 3 s))
    = Some [mkPacket EVT_INPUT (VObj [(lit "text", VStr (lit "hi"))])] /\
  option_map emitted (_socket (sendConfirm VNull (VBool true) s))
    = Some [mkPacket EVT_CONFIRM_RESP (VObj [(lit "response", VStr (lit "yes"))])] /\
  option_map emitted (_socket (sendCommand (VStr (lit "reset")) VUndef s))
    = Some [mkPacket EVT_COMMAND (VObj [(lit "command", VStr (lit "reset"))])].
Proof.
  cbv zeta. repeat split.
Qed.

Lemma send_without_socket_is_noop_witness :
  _socket initial = None /\
  (sendInput (VStr (lit "hi")) 3 initial = initial /\
   sendConfirm VNull (VBool true) initial = initial /\
   sendCommand (VStr (lit "reset")) VUndef initial = initial).
Proof.
  split; [reflexivity|].
  apply (send_without_socket_is_noop initial). reflexivity.
Defined.

Lemma confirm_replaces_and_response_clears_witness :
  let s := set_pendingConfirm (VStr (lit "earlier request")) (connect initial) in
  let request := VObj [(lit "type", VStr (lit "tool")); (lit "message", VStr (lit "run?"))] in
  _socket s = Some (mkSocket []) /\
  exists s1,
    on_confirm request s = Normal s1 /\
    pendingConfirm s1 = request /\
    pendingConfirm (sendConfirm request (VBool false) s1) = VNull /\
    _socket (sendConfirm request (VBool false) s1) =
      Some (mkSocket
        [mkPacket EVT_CONFIRM_RESP (VObj [(lit "response", VStr (lit "no"))])]).
Proof.
  cbv zeta. split; [reflexivity|].
  apply (confirm_replaces_and_response_clears _ (mkSocket [])). reflexivity.
Defined.

Lemma message_build_then_chat_witness :
  let data1 := VObj [(lit "text", VStr (lit "building")); (lit "payload", payload_build)] in
  let data2 := VObj [(lit "payload", payload_chat)] in
  let s' := set_activeProject (VStr (lit "projects/x")) initial in
  get data1 "payload" = Normal payload_build /\
  get data2 "payload" = Normal payload_chat /\
  (exists s1,
     on_message data1 1 initial = Normal s1 /\
     activeWorkflow s1 = VStr (lit "build") /\
     activeProject s1 = VStr (lit "projects/x")) /\
  (exists s2,
     on_message data2 2 s' = Normal s2 /\
     activeWorkflow s2 = VStr (lit "chat") /\
     activeProject s2 = activeProject s').
Proof.
  cbv zeta. split; [reflexivity|]. split; [reflexivity|].
  apply message_build_then_chat; reflexivity.
Defined.

Lemma message_without_project_erases_project_witness :
  let payload := VObj [(lit "workflow", VStr (lit "analyze"))] in
  let data := VObj [(lit "payload", payload)] in
  let s := set_activeProject (VStr (lit "projects/x")) initial in
  activeProject s = VStr (lit "projects/x") /\
  get data "payload" = Normal payload /\
  get payload "workflow" = Normal (VStr (lit "analyze")) /\
  truthy (VStr (lit "analyze")) = true /\
  strict_eq_str (VStr (lit "analyze")) (lit "chat") = false /\
  get payload "project" = Normal VUndef /\
  exists s',
    on_message data 1 s = Normal s' /\
    activeProject s' = VStr [] /\
    activeWorkflow s' = VStr (lit "analyze").
Proof.
  cbv zeta. repeat (split; [reflexivity|]).
  apply message_without_project_erases_project
    with (payload := VObj [(lit "workflow", VStr (lit "analyze"))]);
    reflexivity.
Defined.

(** C8 fails as stated: no handler tests [connected], so a message that
    carries a workflow and is delivered before the connect event leaves a
    state with [connected] false and a workflow active. *)
Lemma workflow_active_while_not_connected :
  let s := run initial [Connect;
                        Receive (EvMessage (VObj [(lit "payload", payload_build)])) 1] in
  connected s = false /\ activeWorkflow s = VStr (lit "build").
Proof.
  cbv zeta. split; reflexivity.
Qed.

Lemma disconnect_clears_active_workflow_witness :
  let ops := [Connect;
              Receive (EvMessage (VObj [(lit "text", VStr (lit "hi"))])) 1;
              Receive EvConnect 2;
              Receive (EvMessage (VObj [(lit "payload", payload_build)])) 3;
              Receive EvDisconnect 4] in
  activeWorkflow (run initial (removelast ops)) = VStr (lit "build") /\
  workflow_messages_while_connected initial ops = true /\
  connected (run initial ops) = false /\
  activeWorkflow (run initial ops) = VNull.
Proof.
  cbv zeta. split; [reflexivity|]. split; [reflexivity|]. split; [reflexivity|].
  apply (proj1 (proj2 (disconnect_clears_active_workflow initial 0 _))); reflexivity.
Defined.

Lemma tool_call_json_args_are_truncated_witness :
  let args := VObj [(lit "path", VStr (lit "a.py"))] in
  let data := VObj [(lit "tool", VStr (lit "read_file")); (lit "args", args)] in
  let j := [123; 34; 112; 97; 116; 104; 34; 58; 34; 97; 46; 112; 121; 34; 125]%N in
  json_stringify args = Some j /\
  handler (EvToolCall data) 7 (connect initial) =
  Normal (set_logs
            (logs (connect initial) ++
             [mkLogEntry (VStr (lit "TOOL"))
                (VStr (arrow_right ++ lit "read_file" ++ two_spaces ++ slice0 120 j))
                7]) (connect initial))
  /\ length (slice0 120 j) <= 120.
Proof.
  cbv zeta. split; [reflexivity|].
  apply tool_call_json_args_are_truncated
    with (tool := VStr (lit "read_file"))
         (args := VObj [(lit "path", VStr (lit "a.py"))]);
    reflexivity.
Defined.

Lemma handlers_with_defaults_do_not_throw_witness :
  reads_with_defaults (EvStatus (VObj [])) = true /\
  throws (handler (EvStatus (VObj [])) 0 initial) = false.
Proof.
  split; [reflexivity|].
  apply handlers_with_defaults_do_not_throw. reflexivity.
Defined.

Lemma command_payload_is_data_over_command_witness :
  let props := [(lit "command", VStr (lit "status")); (lit "verbose", VBool true)] in
  _socket (connect initial) = Some (mkSocket []) /\
  NoDup (map fst props) /\
  exists payload,
    outbox (sendCommand (VStr (lit "run")) (VObj props) (connect initial))
    = [] ++ [mkPacket EVT_COMMAND (VObj payload)] /\
    own_prop (lit "command") payload = Some (VStr (lit "status")).
Proof.
  cbv zeta. split; [reflexivity|]. split.
  - repeat constructor; simpl; intuition discriminate.
  - apply (command_payload_is_data_over_command (connect initial) (mkSocket [])
             (VStr (lit "run"))
             [(lit "command", VStr (lit "status")); (lit "verbose", VBool true)]
             (lit "command")).
    + reflexivity.
    + repeat constructor; simpl; intuition discriminate.
Defined.

Lemma operations_write_only_their_cells_witness :
  let s := run initial [Connect; Receive (EvConfirm (VStr (lit "run?"))) 1] in
  pendingConfirm s = VStr (lit "run?") /\
  may_write (Receive EvDisconnect 2) CellPendingConfirm = false /\
  same_cell CellPendingConfirm s (step s (Receive EvDisconnect 2)).
Proof.
  cbv zeta. split; [reflexivity|]. split; [reflexivity|].
  apply operations_write_only_their_cells. reflexivity.
Defined.

Lemma tool_result_text_is_cut_to_120_witness :
  let result := VStr (repeat 97%N 121) in
  let data := VObj [(lit "tool", VStr (lit "read_file")); (lit "result", result)] in
  get data "tool" = Normal (VStr (lit "read_file")) /\
  get data "result" = Normal result /\
  to_string (VStr (lit "read_file")) = Normal (lit "read_file") /\
  to_string result = Normal (repeat 97%N 121) /\
  exists shown,
    handler (EvToolResult data) 3 (connect initial) =
    Normal (set_logs
              (logs (connect initial) ++
               [mkLogEntry (VStr (lit "TOOL"))
                  (VStr (arrow_left ++ lit "read_file" ++ two_spaces ++ shown)) 3])
              (connect initial)) /\
    shown = firstn 120 (repeat 97%N 121) /\
    length shown <= 120.
Proof.
  cbv zeta. repeat (split; [reflexivity|]).
  apply tool_result_text_is_cut_to_120
    with (tool := VStr (lit "read_file")) (result := VStr (repeat 97%N 121));
    reflexivity.
Defined.

Lemma error_event_reports_error_then_msg_then_fallback_witness :
  nullish (VObj []) = false /\
  handler (EvError (VObj [])) 4 (connect initial)
  = Normal (addMessage (VStr (lit "error"))
              (VStr (text_error_prefix ++ text_unknown_error)) VUndef 4
              (connect initial)).
Proof.
  split; [reflexivity|].
  apply (error_event_reports_error_then_msg_then_fallback (connect initial) 4 (VObj [])).
  reflexivity.
Defined.

Lemma message_event_appends_one_message_with_defaults_witness :
  nullish (VObj []) = false /\
  exists s',
    handler (EvMessage (VObj [])) 5 initial = Normal s' /\
    messages s' = [mkMessage 1 (VStr (lit "assistant")) (VStr []) 5 VNull] /\
    _msgId s' = 1%Z /\
    (truthy VNull = false ->
     s' = addMessage (VStr (lit "assistant")) (VStr []) VNull 5 initial).
Proof.
  split; [reflexivity|].
  apply (message_event_appends_one_message_with_defaults initial 5 (VObj [])).
  reflexivity.
Defined.

Lemma message_completion_sets_pipeline_done_witness :
  let payload := VObj [(lit "status", VStr (lit "completed"));
                       (lit "summary", VStr (lit "3 files"))] in
  let data := VObj [(lit "payload", payload)] in
  get data "payload" = Normal payload /\
  truthy payload = true /\
  exists s',
    handler (EvMessage data) 6 initial = Normal s' /\
    pipelineDone s' = VObj [(lit "status", VStr (lit "completed"))].
Proof.
  cbv zeta. split; [reflexivity|]. split; [reflexivity|].
  apply (message_completion_sets_pipeline_done initial 6
           (VObj [(lit "payload",
                   VObj [(lit "status", VStr (lit "completed"));
                         (lit "summary", VStr (lit "3 files"))])])
           (VObj [(lit "status", VStr (lit "completed"));
                  (lit "summary", VStr (lit "3 files"))])); reflexivity.
Defined.

Lemma text_with_a_full_command_offers_nothing_witness :
  let c := Input.mkCommand (lit "resume") (nth 1 (map Input.hint Input.COMMANDS) []) in
  let applied := Input.applySuggestion (Input.cmd c) (Input.mkState (lit "Re") []) in
  let st := Input.mkState (Input.text applied ++ lit "Now") [] in
  In c (Input.suggestions (Input.onInput ascii_to_lower (Input.mkState (lit "Re") []))) /\
  In c Input.COMMANDS /\
  ascii_to_lower (trim (Input.text st)) = Input.cmd c ++ lit " now" /\
  Input.suggestions (Input.onInput ascii_to_lower st) = [].
Proof.
  cbv zeta. split; [simpl; tauto|]. split; [simpl; tauto|]. split; [reflexivity|].
  apply (text_with_a_full_command_offers_nothing ascii_to_lower
           (Input.mkState (lit "resume Now") [])
           (Input.mkCommand (lit "resume") (nth 1 (map Input.hint Input.COMMANDS) []))
           (lit " now")); [simpl; tauto|reflexivity].
Defined.

Lemma render_text_keeps_plain_text_witness :
  forallb (fun u => negb (Chat.is_special u)) (lit "resume task 7") = true /\
  Chat.renderText (VStr (lit "resume task 7")) = Normal (lit "resume task 7").
Proof.
  split; [reflexivity|].
  apply render_text_keeps_plain_text. reflexivity.
Defined.

Lemma onboarding_submit_sends_the_project_command_witness :
  let md := Onboarding.mkModal true (lit "config") (lit "build") (lit "library")
              (lit " projects/demo ") (lit "a todo app") in
  let command := VStr (lit "project projects/demo") in
  _socket (connect initial) = Some (mkSocket []) /\
  Onboarding.submit_disabled md = false /\
  exists s' timer,
    Onboarding.submit 8 md (connect initial) = (Onboarding.close md, s', timer) /\
    messages s' = [mkMessage 1 (VStr (lit "user")) command 8 VUndef] /\
    outbox s' = [mkPacket EVT_INPUT (VObj [(lit "text", command)])] /\
    (Onboarding.selectedMode md = lit "build" -> timer = Some Onboarding.SendTask) /\
    (Onboarding.selectedMode md = lit "chat" ->
     trim (Onboarding.taskInput md) = [] -> timer = None) /\
    snd (Onboarding.submit 8
           (Onboarding.mkModal true (lit "config") (lit "build") (lit "other")
              (lit " projects/demo ") (lit "a todo app")) (connect initial))
    = timer /\
    snd (fst (Onboarding.submit 8
           (Onboarding.mkModal true (lit "config") (lit "build") (lit "other")
              (lit " projects/demo ") (lit "a todo app")) (connect initial)))
    = s'.
Proof.
  cbv zeta. split; [reflexivity|]. split; [reflexivity|].
  apply (onboarding_submit_sends_the_project_command 8
           (Onboarding.mkModal true (lit "config") (lit "build") (lit "library")
              (lit " projects/demo ") (lit "a todo app"))
           (connect initial) (mkSocket []) (lit "other")); reflexivity.
Defined.

Lemma follow_up_reads_the_task_when_it_runs_witness :
  let md := Onboarding.mkModal false (lit "mode") [] (lit "other")
              (lit "projects/demo") (lit "a todo app") in
  _socket (connect initial) = Some (mkSocket []) /\
  outbox (Onboarding.fire Onboarding.SendTask 9 md (connect initial))
  = [mkPacket EVT_INPUT (VObj [(lit "text", VStr (lit "a todo app"))])] /\
  outbox (Onboarding.fire Onboarding.SendTask 9
            (Onboarding.selectMode (lit "chat") md) (connect initial))
  = [mkPacket EVT_INPUT (VObj [(lit "text", VStr [])])] /\
  messages (Onboarding.fire Onboarding.SendTask 9
              (Onboarding.selectMode (lit "chat") md) (connect initial))
  = [mkMessage 1 (VStr (lit "user")) (VStr []) 9 VUndef].
Proof.
  cbv zeta. split; [reflexivity|].
  apply (follow_up_reads_the_task_when_it_runs 9
           (Onboarding.mkModal false (lit "mode") [] (lit "other")
              (lit "projects/demo") (lit "a todo app"))
           (connect initial) (mkSocket []) (lit "chat")).
  reflexivity.
Defined.
